(** * EchoChamber: the jabberite test driver ([echochamber/client.py])

    A shallow embedding of the [Client] class, which drives an interactive
    jabberite child process through pexpect, and the properties of its line
    reader, message queue and conversation handshake. *)

From Stdlib Require Import ZArith List String Ascii Bool Lia Arith.
From Stdlib Require Import DecimalString DecimalZ DecimalPos.
Import ListNotations.
Open Scope string_scope.
Open Scope Z_scope.

Set Implicit Arguments.

(** ** Python strings and integers *)

Definition newline : ascii := "010"%char.
Definition NL : string := String newline EmptyString.

(** [str(n)] for an integer, which is also how [format] renders it. *)
Definition str_of_int (z : Z) : string := NilZero.string_of_int (Z.to_int z).

(** [int(s)]: an optional minus sign followed by decimal digits; anything
    else is a ValueError, rendered as [None]. *)
Definition int_of_str (s : string) : option Z :=
  option_map Z.of_int (NilZero.int_of_string s).

(** [format] applied to a value that is [None] or an integer. *)
Definition format_id (v : option Z) : string :=
  match v with
  | None => "None"
  | Some z => str_of_int z
  end.

(** The first field of [s.split] on the at sign: the text before the first one. *)
Fixpoint before_at (s : string) : string :=
  match s with
  | EmptyString => EmptyString
  | String c s' => if Ascii.eqb c "@" then EmptyString else String c (before_at s')
  end.

Fixpoint last_char (s : string) : option ascii :=
  match s with
  | EmptyString => None
  | String c EmptyString => Some c
  | String _ s' => last_char s'
  end.

(** [os.path.join(a, b)] for a relative [b]. *)
Definition path_join (a b : string) : string :=
  match last_char a with
  | None => b
  | Some c => if Ascii.eqb c "/" then a ++ b else a ++ "/" ++ b
  end.

(** [join] with a single space as the separator. *)
Fixpoint join_space (xs : list string) : string :=
  match xs with
  | [] => ""
  | [x] => x
  | x :: xs' => x ++ " " ++ join_space xs'
  end.

(** ** Regular expressions

    The fragment of Python's [re] syntax that the driver's patterns are
    written in: literal and escaped characters, [\d], [\w], [.], the greedy
    quantifiers [*] and [+] on one character, [^], [$] and capturing groups
    that do not nest. *)

Module Re.

Inductive atom :=
| AChar (c : ascii)
| ADigit
| AWord
| AAny.

Inductive tok :=
| TBol
| TEol
| TOpen
| TClose
| TOne (a : atom)
| TStar (a : atom)
| TPlus (a : atom).

Definition regex := list tok.

Definition between (lo hi c : ascii) : bool :=
  ((nat_of_ascii lo <=? nat_of_ascii c)%nat && (nat_of_ascii c <=? nat_of_ascii hi)%nat)%bool.

(** [\d] and [\w] on byte strings, without the LOCALE and UNICODE flags. *)
Definition is_digit (c : ascii) : bool := between "0" "9" c.

Definition is_alpha (c : ascii) : bool := between "a" "z" c || between "A" "Z" c.

Definition is_word (c : ascii) : bool := is_alpha c || is_digit c || Ascii.eqb c "_".

Definition atom_ok (dotall : bool) (a : atom) (c : ascii) : bool :=
  match a with
  | AChar c' => Ascii.eqb c' c
  | ADigit => is_digit c
  | AWord => is_word c
  | AAny => dotall || negb (Ascii.eqb c newline)
  end.

(** *** Compilation of a pattern string *)

Definition flush (pending : option atom) (acc : list tok) : list tok :=
  match pending with
  | Some a => TOne a :: acc
  | None => acc
  end.

Definition escape_atom (c : ascii) : option atom :=
  if Ascii.eqb c "d" then Some ADigit
  else if Ascii.eqb c "w" then Some AWord
  else if is_alpha c || is_digit c then None
  else Some (AChar c).

Definition unsupported (c : ascii) : bool :=
  existsb (Ascii.eqb c) ["["; "]"; "{"; "}"; "|"; "?"]%char.

(** One pass over the pattern: [pending] is the last atom, not yet emitted
    because a quantifier may follow it; [esc] says that the previous
    character was a backslash; [depth] counts the open groups. [None] stands
    for [re.error], and for syntax outside the fragment. *)
Fixpoint parse (s : list ascii) (pending : option atom) (esc : bool) (depth : nat)
    (acc : list tok) : option regex :=
  match s with
  | [] =>
      if esc then None
      else match depth with
           | O => Some (rev (flush pending acc))
           | S _ => None
           end
  | c :: s' =>
      if esc then
        match escape_atom c with
        | Some a => parse s' (Some a) false depth (flush pending acc)
        | None => None
        end
      else if Ascii.eqb c "\" then parse s' pending true depth acc
      else if Ascii.eqb c "*" then
        match pending with
        | Some a => parse s' None false depth (TStar a :: acc)
        | None => None
        end
      else if Ascii.eqb c "+" then
        match pending with
        | Some a => parse s' None false depth (TPlus a :: acc)
        | None => None
        end
      else if Ascii.eqb c "(" then
        match depth with
        | O => parse s' None false 1%nat (TOpen :: flush pending acc)
        | S _ => None
        end
      else if Ascii.eqb c ")" then
        match depth with
        | O => None
        | S d => parse s' None false d (TClose :: flush pending acc)
        end
      else if Ascii.eqb c "^" then parse s' None false depth (TBol :: flush pending acc)
      else if Ascii.eqb c "$" then parse s' None false depth (TEol :: flush pending acc)
      else if unsupported c then None
      else if Ascii.eqb c "." then parse s' (Some AAny) false depth (flush pending acc)
      else parse s' (Some (AChar c)) false depth (flush pending acc)
  end.

(** [re.compile(pattern)]. *)
Definition compile (pattern : string) : option regex :=
  parse (list_ascii_of_string pattern) None false 0%nat [].

Fixpoint take_while (ok : ascii -> bool) (s : list ascii) : list ascii :=
  match s with
  | c :: s' => if ok c then c :: take_while ok s' else []
  | [] => []
  end.

Fixpoint drop_while (ok : ascii -> bool) (s : list ascii) : list ascii :=
  match s with
  | c :: s' => if ok c then drop_while ok s' else s
  | [] => []
  end.

Definition not_newline (c : ascii) : bool := negb (Ascii.eqb c newline).

(** *** Matching, greedy with backtracking *)

Section Star.
Variable A : Type.
Variable ok : ascii -> bool.
Variable k : bool -> list ascii -> option A.

(** [x*] followed by [k]: the longest run of [x] first, then shorter ones.
    The flag says whether the subject is still at its first position. *)
Fixpoint star (b : bool) (s : list ascii) : option A :=
  match s with
  | c :: s' =>
      if ok c then
        match star false s' with
        | Some r => Some r
        | None => k b s
        end
      else k b s
  | [] => k b []
  end.
End Star.

(** [run dotall r caps opened b s] matches [r] at the head of [s]. [caps] are
    the groups closed so far, [opened] the subject as it was when the open
    group began, [b] whether [s] is the whole subject. The result is the
    groups and the text left after the match. *)
Fixpoint run (dotall : bool) (r : regex) (caps : list (list ascii))
    (opened : option (list ascii)) (b : bool) (s : list ascii)
    : option (list (list ascii) * list ascii) :=
  match r with
  | [] => Some (caps, s)
  | TBol :: r' => if b then run dotall r' caps opened b s else None
  | TEol :: r' =>
      match s with
      | [] => run dotall r' caps opened b s
      | [c] => if Ascii.eqb c newline then run dotall r' caps opened b s else None
      | _ => None
      end
  | TOpen :: r' => run dotall r' caps (Some s) b s
  | TClose :: r' =>
      match opened with
      | Some s0 =>
          run dotall r' (caps ++ [firstn (List.length s0 - List.length s) s0])%list None b s
      | None => None
      end
  | TOne a :: r' =>
      match s with
      | c :: s' => if atom_ok dotall a c then run dotall r' caps opened false s' else None
      | [] => None
      end
  | TStar a :: r' =>
      star (atom_ok dotall a) (fun b' s' => run dotall r' caps opened b' s') b s
  | TPlus a :: r' =>
      match s with
      | c :: s' =>
          if atom_ok dotall a c
          then star (atom_ok dotall a) (fun b' s' => run dotall r' caps opened b' s') false s'
          else None
      | [] => None
      end
  end.

(** [pattern.match(s)]: the groups 1, 2, ... of a match at the start of [s]. *)
Definition re_match (r : regex) (s : string) : option (list string) :=
  match run false r [] None true (list_ascii_of_string s) with
  | Some (caps, _) => Some (map string_of_list_ascii caps)
  | None => None
  end.

(** A successful search: the text before the match, the matched text
    (group 0) followed by the other groups, and the text after the match. *)
Record found := { before : list ascii; groups : list string; after : list ascii }.

Fixpoint search_from (dotall : bool) (r : regex) (b : bool) (skipped s : list ascii)
    : option found :=
  match run dotall r [] None b s with
  | Some (caps, rest) =>
      Some {| before := skipped;
              groups := map string_of_list_ascii
                          (firstn (List.length s - List.length rest) s :: caps);
              after := rest |}
  | None =>
      match s with
      | c :: s' => search_from dotall r false (skipped ++ [c])%list s'
      | [] => None
      end
  end.

(** [pattern.search(s)], leftmost match first. *)
Definition search (dotall : bool) (r : regex) (s : list ascii) : option found :=
  search_from dotall r true [] s.

End Re.

(** The message pattern compiled in [Client.__init__], as the source
    writes it and as the token list it compiles to. *)
Definition r_message_source : string := "^\*\* <(\d+)> <(\w+)> (.*)$".

Definition r_message : Re.regex :=
  [Re.TBol; Re.TOne (Re.AChar "*"); Re.TOne (Re.AChar "*"); Re.TOne (Re.AChar " ");
   Re.TOne (Re.AChar "<"); Re.TOpen; Re.TPlus Re.ADigit; Re.TClose;
   Re.TOne (Re.AChar ">"); Re.TOne (Re.AChar " ");
   Re.TOne (Re.AChar "<"); Re.TOpen; Re.TPlus Re.AWord; Re.TClose;
   Re.TOne (Re.AChar ">"); Re.TOne (Re.AChar " ");
   Re.TOpen; Re.TStar Re.AAny; Re.TClose; Re.TEol]%char.

(** ** Exceptions and the monad of the driver *)

Inductive exn :=
| TIMEOUT                          (* pexpect.TIMEOUT *)
| EOF                              (* pexpect.EOF *)
| AttributeError (attr : string)   (* attribute [attr] looked up on [None] *)
| IndexError                       (* no such group *)
| ValueError                       (* invalid literal for [int] *)
| OtherError (msg : string).

(** The outcome of a call: a value, an exception, or a loop that has not
    finished within the fuel it was given. *)
Inductive res (A : Type) :=
| Ok (a : A)
| Raise (e : exn)
| OutOfFuel.

Arguments Ok {A} a.
Arguments Raise {A} e.
Arguments OutOfFuel {A}.

Definition is_raise {A} (r : res A) : bool :=
  match r with
  | Raise _ => true
  | _ => false
  end.

Definition is_ok {A} (r : res A) : bool :=
  match r with
  | Ok _ => true
  | _ => false
  end.

(** ** The interface of pexpect, and of the operating system behind it

    [world] holds everything outside the driver: the child processes with
    their pipes, the clock, the files. A [handle] is a [pexpect.spawn]
    object. Timeouts and the clock are in the same unit. *)

Class Pexpect := {
  world : Type;
  handle : Type;
  (* time.time() *)
  time_time : world -> Z;
  (* pytest.config.getoption on the run-with-gdb flag *)
  run_with_gdb : world -> bool;
  (* open(name, "wb") *)
  open_wb : string -> world -> world;
  (* pexpect.spawn(command, args, env=env, echo=False, timeout=timeout) *)
  p_spawn : string -> list string -> list (string * string) -> Z -> world -> res handle * world;
  (* assignment to the logfile attribute: a file by its name, or None *)
  p_set_logfile : handle -> option string -> world -> world;
  (* assignment of the driver's StringIO buffer to the logfile_read attribute *)
  p_set_logfile_read : handle -> world -> world;
  p_sendline : handle -> string -> world -> res Z * world;
  (* expect(pattern, timeout), where timeout -1 is the default *)
  p_expect : handle -> string -> Z -> world -> res Z * world;
  (* the match attribute: None, or the groups 0, 1, ... of the last match *)
  p_match : handle -> world -> option (list string);
  (* read_nonblocking(size, timeout) *)
  p_read_nonblocking : handle -> Z -> Z -> world -> res string * world;
  (* terminate(force) *)
  p_terminate : handle -> bool -> world -> res bool * world;
  p_isalive : handle -> world -> bool
}.

Section Driver.

Context {P : Pexpect}.

(** ** The driver's state *)

Record Client := mkClient {
  xmpp_user : string;
  xmpp_password : string;
  username : string;
  port : string;
  proxy : option string;
  _process : option handle;
  conversation_id : option Z;
  debug : bool;
  np1sec_path : string;
  ld_library_path : string;
  jabberite_bin : string;
  env : option (list (string * string));
  messages : list string
}.

(** [Client.__init__]. The [env] attribute does not exist before [connect]. *)
Definition init (user password : string) (port_ : Z) (np1sec ld_library : string)
    (proxy_ : option string) : Client :=
  {| xmpp_user := user;
     xmpp_password := password;
     username := before_at user;
     port := str_of_int port_;
     proxy := proxy_;
     _process := None;
     conversation_id := None;
     debug := false;
     np1sec_path := np1sec;
     ld_library_path := ld_library;
     jabberite_bin := path_join np1sec "jabberite";
     env := None;
     messages := [] |}.

(** Client objects live in a store and are named by references, so that two
    arguments of a call may be the same object. *)
Definition ref := nat.

(** What a driver did, for stating the order of its steps: a process it
    spawned, a line [sendline] accepted, a pattern [expect] matched (with the
    match object it left), a byte read it started (with the clock and the
    budget at that moment). *)
Inductive event :=
| EvSpawn (self : ref) (command : string) (args : list string)
| EvSend (self : ref) (line : string)
| EvExpect (self : ref) (pattern : string) (m : option (list string))
| EvRead (self : ref) (now budget : Z).

Record state := mkState {
  clients : ref -> Client;
  os : world;
  trace : list event
}.

Definition M (A : Type) : Type := state -> res A * state.

Definition ret {A} (a : A) : M A := fun st => (Ok a, st).

Definition raise {A} (e : exn) : M A := fun st => (Raise e, st).

Definition out_of_fuel {A} : M A := fun st => (OutOfFuel, st).

Definition bind {A B} (m : M A) (f : A -> M B) : M B :=
  fun st =>
    match m st with
    | (Ok a, st') => f a st'
    | (Raise e, st') => (Raise e, st')
    | (OutOfFuel, st') => (OutOfFuel, st')
    end.

Notation "x <- m ;; k" := (bind m (fun x => k))
  (at level 61, m at next level, right associativity).
Notation "m ;;; k" := (bind m (fun _ => k))
  (at level 61, right associativity).

Definition get_client (self : ref) : M Client := fun st => (Ok (clients st self), st).

Definition upd (self : ref) (f : Client -> Client) (cs : ref -> Client) : ref -> Client :=
  fun r => if Nat.eqb r self then f (cs r) else cs r.

Definition set_client (self : ref) (f : Client -> Client) : M unit :=
  fun st => (Ok tt, {| clients := upd self f (clients st); os := os st; trace := trace st |}).

Definition get_os : M world := fun st => (Ok (os st), st).

Definition lift_os {A} (f : world -> res A * world) : M A :=
  fun st =>
    let (r, w) := f (os st) in
    (r, {| clients := clients st; os := w; trace := trace st |}).

Definition modify_os (f : world -> world) : M unit :=
  fun st => (Ok tt, {| clients := clients st; os := f (os st); trace := trace st |}).

Definition log (e : event) : M unit :=
  fun st => (Ok tt, {| clients := clients st; os := os st; trace := (trace st ++ [e])%list |}).

(** [self._process.attr]: an AttributeError when [self._process] is [None]. *)
Definition process_attr (self : ref) (attr : string) : M handle :=
  c <- get_client self ;;
  match _process c with
  | Some h => ret h
  | None => raise (AttributeError attr)
  end.

Definition set_process (h : option handle) (c : Client) : Client :=
  {| xmpp_user := xmpp_user c; xmpp_password := xmpp_password c; username := username c;
     port := port c; proxy := proxy c; _process := h;
     conversation_id := conversation_id c; debug := debug c;
     np1sec_path := np1sec_path c; ld_library_path := ld_library_path c;
     jabberite_bin := jabberite_bin c; env := env c; messages := messages c |}.

Definition set_conversation_id (v : option Z) (c : Client) : Client :=
  {| xmpp_user := xmpp_user c; xmpp_password := xmpp_password c; username := username c;
     port := port c; proxy := proxy c; _process := _process c;
     conversation_id := v; debug := debug c;
     np1sec_path := np1sec_path c; ld_library_path := ld_library_path c;
     jabberite_bin := jabberite_bin c; env := env c; messages := messages c |}.

Definition set_env (e : list (string * string)) (c : Client) : Client :=
  {| xmpp_user := xmpp_user c; xmpp_password := xmpp_password c; username := username c;
     port := port c; proxy := proxy c; _process := _process c;
     conversation_id := conversation_id c; debug := debug c;
     np1sec_path := np1sec_path c; ld_library_path := ld_library_path c;
     jabberite_bin := jabberite_bin c; env := Some e; messages := messages c |}.

Definition set_messages (ms : list string) (c : Client) : Client :=
  {| xmpp_user := xmpp_user c; xmpp_password := xmpp_password c; username := username c;
     port := port c; proxy := proxy c; _process := _process c;
     conversation_id := conversation_id c; debug := debug c;
     np1sec_path := np1sec_path c; ld_library_path := ld_library_path c;
     jabberite_bin := jabberite_bin c; env := env c; messages := ms |}.

(** ** The methods of [Client] *)

Definition set_debug (self : ref) (enable : bool) : M unit :=
  if enable then
    c <- get_client self ;;
    let log_file := username c ++ ".log" in
    modify_os (open_wb log_file) ;;;
    h <- process_attr self "logfile" ;;
    modify_os (p_set_logfile h (Some log_file))
  else
    h <- process_attr self "logfile" ;;
    modify_os (p_set_logfile h None).

Definition send_message (self : ref) (message : string) : M Z :=
  h <- process_attr self "sendline" ;;
  r <- lift_os (p_sendline h message) ;;
  log (EvSend self message) ;;;
  ret r.

(** [expect(pattern)], and [expect(pattern, timeout=t)]; the callers in this
    class pass the pattern only, which is timeout -1. *)
Definition expect (self : ref) (pattern : string) (timeout : Z) : M Z :=
  h <- process_attr self "expect" ;;
  r <- lift_os (p_expect h pattern timeout) ;;
  w <- get_os ;;
  log (EvExpect self pattern (p_match h w)) ;;;
  ret r.

(** The loop of [read_line]; [end_] is the deadline and [line] the text
    gathered so far. *)
Fixpoint read_line_loop (fuel : nat) (self : ref) (end_ : Z) (line : string) : M string :=
  match fuel with
  | O => out_of_fuel
  | S fuel' =>
      h <- process_attr self "read_nonblocking" ;;
      w <- get_os ;;
      let budget := Z.max 0 (end_ - time_time w) in
      log (EvRead self (time_time w) budget) ;;;
      b <- lift_os (p_read_nonblocking h 1 budget) ;;
      if String.eqb b NL then ret line
      else read_line_loop fuel' self end_ (line ++ b)
  end.

Definition read_line (fuel : nat) (self : ref) (timeout : Z) : M string :=
  w <- get_os ;;
  let end_ := time_time w + timeout in
  read_line_loop fuel self end_ "".

Definition read_event (fuel : nat) (self : ref) (timeout : Z) : M unit :=
  line <- read_line fuel self timeout ;;
  match Re.re_match r_message line with
  | Some _ =>
      c <- get_client self ;;
      set_client self (set_messages (messages c ++ [line])%list)
  | None => ret tt
  end.

(** The loop of [read_message]: [n] bounds its iterations, [fuel] is handed
    to every [read_event]. *)
Fixpoint read_message_loop (n fuel : nat) (self : ref) (end_ : Z) : M string :=
  match n with
  | O => out_of_fuel
  | S n' =>
      c <- get_client self ;;
      match messages c with
      | m :: ms =>
          set_client self (set_messages ms) ;;;
          ret m
      | [] =>
          w <- get_os ;;
          let time_remaining := Z.max 0 (end_ - time_time w) in
          read_event fuel self time_remaining ;;;
          read_message_loop n' fuel self end_
      end
  end.

Definition read_message (fuel : nat) (self : ref) (timeout : Z) : M string :=
  w <- get_os ;;
  let end_ := time_time w + timeout in
  read_message_loop fuel fuel self end_.

Definition connect (self : ref) (room server : string) : M unit :=
  c <- get_client self ;;
  let cmd_args := ["--account"; xmpp_user c; "--password"; xmpp_password c;
                   "--server"; server; "--port"; port c; "--room"; room] in
  let env_ := [("LD_LIBRARY_PATH", np1sec_path c ++ ":" ++ ld_library_path c)] in
  set_client self (set_env env_) ;;;
  w <- get_os ;;
  let '(command, cmd_args) :=
    if run_with_gdb w
    then ("gdb", (["-ex"; "run"; "--args"; jabberite_bin c] ++ cmd_args)%list)
    else (jabberite_bin c, cmd_args) in
  match _process c with
  | Some _ => ret tt
  | None =>
      h <- lift_os (p_spawn command cmd_args env_ 3600) ;;
      set_client self (set_process (Some h)) ;;;
      log (EvSpawn self command cmd_args) ;;;
      modify_os (p_set_logfile h None) ;;;
      modify_os (p_set_logfile_read h) ;;;
      expect self "\*\* Connected" (-1) ;;;
      ret tt
  end.

(** [self._process.match.group(n)]. *)
Definition match_group (self : ref) (n : nat) : M string :=
  h <- process_attr self "match" ;;
  w <- get_os ;;
  match p_match h w with
  | None => raise (AttributeError "group")
  | Some gs =>
      match nth_error gs n with
      | Some g => ret g
      | None => raise IndexError
      end
  end.

Definition py_int (s : string) : M Z :=
  match int_of_str s with
  | Some z => ret z
  | None => raise ValueError
  end.

Definition create_conversation (self : ref) : M Z :=
  send_message self "/create" ;;;
  expect self "\*\* Created conversation (\d+):" (-1) ;;;
  g <- match_group self 1 ;;
  py_int g.

Definition select_pattern : string := "\*\* Selecting conversation (\d+)".

Definition select_conversation (self : ref) (conversation_id_ : option Z) : M Z :=
  send_message self ("/select " ++ format_id conversation_id_) ;;;
  expect self select_pattern (-1) ;;;
  g <- match_group self 1 ;;
  z <- py_int g ;;
  set_client self (set_conversation_id (Some z)) ;;;
  ret z.

Definition invite_conversation (self : ref) (username_ : string) : M unit :=
  send_message self ("/invite " ++ username_) ;;;
  c <- get_client self ;;
  expect self ("\*\* <(\d)> " ++ username c ++ " invited user " ++ username_) (-1) ;;;
  ret tt.

Definition join_conversation (self : ref) (conversation_id_ : option Z) : M unit :=
  expect self ("\*\* Invited to conversation " ++ format_id conversation_id_) (-1) ;;;
  select_conversation self conversation_id_ ;;;
  send_message self "/join" ;;;
  expect self "you joined the chat session" (-1) ;;;
  ret tt.

Definition invite_and_join_conversation (self client : ref) : M unit :=
  c <- get_client client ;;
  invite_conversation self (username c) ;;;
  s <- get_client self ;;
  join_conversation client (conversation_id s) ;;;
  c' <- get_client client ;;
  expect self (username c' ++ " joined the chat session") (-1) ;;;
  ret tt.

Definition stop (self : ref) : M unit :=
  c <- get_client self ;;
  match _process c with
  | Some h =>
      lift_os (p_terminate h true) ;;;
      ret tt
  | None => ret tt
  end.

(** ** Test scripts: sequences of calls on the drivers *)

Inductive call :=
| CSetDebug (self : ref) (enable : bool)
| CSendMessage (self : ref) (message : string)
| CExpect (self : ref) (pattern : string) (timeout : Z)
| CReadLine (self : ref) (timeout : Z)
| CReadEvent (self : ref) (timeout : Z)
| CReadMessage (self : ref) (timeout : Z)
| CConnect (self : ref) (room server : string)
| CCreateConversation (self : ref)
| CSelectConversation (self : ref) (conversation_id_ : option Z)
| CInviteConversation (self : ref) (username_ : string)
| CJoinConversation (self : ref) (conversation_id_ : option Z)
| CInviteAndJoinConversation (self client : ref)
| CStop (self : ref).

(** One call; the script goes on whatever its outcome was. *)
Definition run_call (fuel : nat) (c : call) : state -> state :=
  fun st =>
    match c with
    | CSetDebug self enable => snd (set_debug self enable st)
    | CSendMessage self message => snd (send_message self message st)
    | CExpect self pattern timeout => snd (expect self pattern timeout st)
    | CReadLine self timeout => snd (read_line fuel self timeout st)
    | CReadEvent self timeout => snd (read_event fuel self timeout st)
    | CReadMessage self timeout => snd (read_message fuel self timeout st)
    | CConnect self room server => snd (connect self room server st)
    | CCreateConversation self => snd (create_conversation self st)
    | CSelectConversation self id => snd (select_conversation self id st)
    | CInviteConversation self u => snd (invite_conversation self u st)
    | CJoinConversation self id => snd (join_conversation self id st)
    | CInviteAndJoinConversation self client => snd (invite_and_join_conversation self client st)
    | CStop self => snd (stop self st)
    end.

Definition run_calls (fuel : nat) (cs : list call) (st : state) : state :=
  fold_left (fun st c => run_call fuel c st) cs st.

End Driver.

Arguments Client {P}.
Arguments state {P}.

(** ** A scripted child process

    An instance of the interface in which the whole future output of every
    child is written down in advance, each byte with the time at which it
    reaches the pipe. It follows the documented behaviour of pexpect: a read
    returns at once what is already there, waits at most its timeout for the
    rest, and raises TIMEOUT, or EOF once the child is dead; [expect] keeps
    what it has read and not matched in a buffer of its own. *)

Module Scripted.

Record child := mkChild {
  out : list (Z * ascii);
  alive : bool;
  buffer : list ascii;
  match_ : option (list string);
  stdin : list string;
  logfile : option string;
  logfile_read : bool;
  timeout : Z
}.

Record sworld := mkWorld {
  clock : Z;
  gdb : bool;
  procs : list child;
  programs : list (list (Z * ascii));
  files : list string
}.

Definition set_clock (t : Z) (w : sworld) : sworld :=
  {| clock := t; gdb := gdb w; procs := procs w; programs := programs w; files := files w |}.

Fixpoint replace_nth {A} (n : nat) (x : A) (l : list A) : list A :=
  match l, n with
  | [], _ => []
  | _ :: l', O => x :: l'
  | y :: l', S n' => y :: replace_nth n' x l'
  end.

Definition set_child (h : nat) (c : child) (w : sworld) : sworld :=
  {| clock := clock w; gdb := gdb w; procs := replace_nth h c (procs w);
     programs := programs w; files := files w |}.

Definition bad_handle {A} (w : sworld) : res A * sworld :=
  (Raise (OtherError "no such process"), w).

Definition s_spawn (command : string) (args : list string) (env : list (string * string))
    (timeout_ : Z) (w : sworld) : res nat * sworld :=
  let c := {| out := hd [] (programs w); alive := true; buffer := []; match_ := None;
              stdin := []; logfile := None; logfile_read := false; timeout := timeout_ |} in
  (Ok (List.length (procs w)),
   {| clock := clock w; gdb := gdb w; procs := (procs w ++ [c])%list;
      programs := tl (programs w); files := files w |}).

Definition s_set_logfile (h : nat) (f : option string) (w : sworld) : sworld :=
  match nth_error (procs w) h with
  | Some c =>
      set_child h {| out := out c; alive := alive c; buffer := buffer c; match_ := match_ c;
                     stdin := stdin c; logfile := f; logfile_read := logfile_read c;
                     timeout := timeout c |} w
  | None => w
  end.

Definition s_set_logfile_read (h : nat) (w : sworld) : sworld :=
  match nth_error (procs w) h with
  | Some c =>
      set_child h {| out := out c; alive := alive c; buffer := buffer c; match_ := match_ c;
                     stdin := stdin c; logfile := logfile c; logfile_read := true;
                     timeout := timeout c |} w
  | None => w
  end.

(** [sendline(line)]: the line and its newline are written to the terminal
    of the child, whether the child still runs or not. *)
Definition s_sendline (h : nat) (line : string) (w : sworld) : res Z * sworld :=
  match nth_error (procs w) h with
  | Some c =>
      (Ok (Z.of_nat (String.length line) + 1),
       set_child h {| out := out c; alive := alive c; buffer := buffer c; match_ := match_ c;
                      stdin := (stdin c ++ [line])%list; logfile := logfile c;
                      logfile_read := logfile_read c; timeout := timeout c |} w)
  | None => bad_handle w
  end.

Definition set_out (o : list (Z * ascii)) (c : child) : child :=
  {| out := o; alive := alive c; buffer := buffer c; match_ := match_ c;
     stdin := stdin c; logfile := logfile c; logfile_read := logfile_read c;
     timeout := timeout c |}.

(** [read_nonblocking(1, budget)]. It reads the pipe, not the buffer of
    [expect]. A byte that is in the pipe is returned whatever the budget,
    also when the budget is zero. Here a call takes no time but the time it
    waits; [Ticking] below has reads that take time of their own. *)
Definition s_read_nonblocking (h : nat) (size budget : Z) (w : sworld) : res string * sworld :=
  match nth_error (procs w) h with
  | Some c =>
      match out c with
      | (a, b) :: o =>
          if a <=? clock w then
            (Ok (String b EmptyString), set_child h (set_out o c) w)
          else if negb (alive c) then (Raise EOF, w)
          else if a <=? clock w + budget then
            (Ok (String b EmptyString), set_clock a (set_child h (set_out o c) w))
          else (Raise TIMEOUT, set_clock (clock w + Z.max 0 budget) w)
      | [] =>
          if alive c then (Raise TIMEOUT, set_clock (clock w + Z.max 0 budget) w)
          else (Raise EOF, w)
      end
  | None => bad_handle w
  end.

(** The bytes that are in the pipe at time [now], and the rest. *)
Fixpoint slurp (now : Z) (o : list (Z * ascii)) : list ascii * list (Z * ascii) :=
  match o with
  | (a, b) :: o' =>
      if a <=? now then let (xs, r) := slurp now o' in (b :: xs, r) else ([], o)
  | [] => ([], [])
  end.

Inductive expect_result :=
| EMatch (now : Z) (f : Re.found) (o : list (Z * ascii))
| EFail (e : exn) (now : Z) (buf : list ascii) (o : list (Z * ascii)).

(** The loop of [expect]: search what has been read; if there is no match,
    read what is in the pipe, waiting for the next byte when the pipe is
    empty, and search again. [n] bounds the rounds. *)
Fixpoint expect_loop (n : nat) (r : Re.regex) (deadline : Z) (alive_ : bool)
    (buf : list ascii) (o : list (Z * ascii)) (now : Z) : expect_result :=
  match Re.search true r buf with
  | Some f => EMatch now f o
  | None =>
      match n with
      | O => EFail TIMEOUT (Z.max now deadline) buf o
      | S n' =>
          match o with
          | [] => if alive_ then EFail TIMEOUT (Z.max now deadline) buf o
                  else EFail EOF now [] o
          | (a, _) :: _ =>
              if a <=? now then
                let (xs, o') := slurp now o in
                expect_loop n' r deadline alive_ (buf ++ xs)%list o' now
              else if negb alive_ then EFail EOF now [] o
              else if a <=? deadline then
                let (xs, o') := slurp a o in
                expect_loop n' r deadline alive_ (buf ++ xs)%list o' a
              else EFail TIMEOUT (Z.max now deadline) buf o
          end
      end
  end.

Definition s_expect (h : nat) (pattern : string) (timeout_ : Z) (w : sworld) : res Z * sworld :=
  match nth_error (procs w) h with
  | Some c =>
      match Re.compile pattern with
      | None => (Raise (OtherError "re.error"), w)
      | Some r =>
          let t := if timeout_ =? -1 then timeout c else timeout_ in
          match expect_loop (S (List.length (out c))) r (clock w + t) (alive c)
                  (buffer c) (out c) (clock w) with
          | EMatch now f o =>
              (Ok 0,
               set_clock now
                 (set_child h {| out := o; alive := alive c; buffer := Re.after f;
                                 match_ := Some (Re.groups f); stdin := stdin c;
                                 logfile := logfile c; logfile_read := logfile_read c;
                                 timeout := timeout c |} w))
          | EFail e now buf o =>
              (Raise e,
               set_clock now
                 (set_child h {| out := o; alive := alive c; buffer := buf;
                                 match_ := None; stdin := stdin c;
                                 logfile := logfile c; logfile_read := logfile_read c;
                                 timeout := timeout c |} w))
          end
      end
  | None => bad_handle w
  end.

Definition s_match (h : nat) (w : sworld) : option (list string) :=
  match nth_error (procs w) h with
  | Some c => match_ c
  | None => None
  end.

Definition s_isalive (h : nat) (w : sworld) : bool :=
  match nth_error (procs w) h with
  | Some c => alive c
  | None => false
  end.

(** [terminate(force=True)]: a live child is dead afterwards, by SIGKILL at the
    latest; with no live child it returns at once. *)
Definition s_terminate (h : nat) (force : bool) (w : sworld) : res bool * sworld :=
  match nth_error (procs w) h with
  | Some c =>
      if alive c then
        (Ok true,
         set_child h {| out := out c; alive := false; buffer := buffer c; match_ := match_ c;
                        stdin := stdin c; logfile := logfile c;
                        logfile_read := logfile_read c; timeout := timeout c |} w)
      else (Ok true, w)
  | None => (Ok true, w)
  end.

Definition s_open_wb (name : string) (w : sworld) : sworld :=
  {| clock := clock w; gdb := gdb w; procs := procs w; programs := programs w;
     files := name :: files w |}.

#[export] Instance scripted : Pexpect := {|
  world := sworld;
  handle := nat;
  time_time := clock;
  run_with_gdb := gdb;
  open_wb := s_open_wb;
  p_spawn := s_spawn;
  p_set_logfile := s_set_logfile;
  p_set_logfile_read := s_set_logfile_read;
  p_sendline := s_sendline;
  p_expect := s_expect;
  p_match := s_match;
  p_read_nonblocking := s_read_nonblocking;
  p_terminate := s_terminate;
  p_isalive := s_isalive
|}.

(** A line of output that reaches the pipe, whole, at time [t]. *)
Definition at_time (t : Z) (s : string) : list (Z * ascii) :=
  map (fun b => (t, b)) (list_ascii_of_string s).

Definition line_at (t : Z) (s : string) : list (Z * ascii) :=
  at_time t (s ++ NL).

End Scripted.

(** ** Reading the trace *)

(** An event without its match object: the step that was taken. *)
Definition erase (e : event) : event :=
  match e with
  | EvExpect self pattern _ => EvExpect self pattern None
  | _ => e
  end.

(** The steps of the invite and join handshake between the inviter [self]
    and the invitee [client], for their user names and the conversation the
    inviter has selected. *)
Definition handshake (self client : ref) (self_name client_name : string)
    (cid : option Z) : list event :=
  [EvSend self ("/invite " ++ client_name);
   EvExpect self ("\*\* <(\d)> " ++ self_name ++ " invited user " ++ client_name) None;
   EvExpect client ("\*\* Invited to conversation " ++ format_id cid) None;
   EvSend client ("/select " ++ format_id cid);
   EvExpect client select_pattern None;
   EvSend client "/join";
   EvExpect client "you joined the chat session" None;
   EvExpect self (client_name ++ " joined the chat session") None].

Definition prefix {A} (xs ys : list A) : Prop := exists rest, ys = (xs ++ rest)%list.

(** The integer that an event confirms as selected by driver [r]: group 1 of
    a match of the selection pattern, when it reads as an integer. *)
Definition selected_of_event (r : ref) (e : event) : option Z :=
  match e with
  | EvExpect self pattern (Some gs) =>
      if (Nat.eqb self r && String.eqb pattern select_pattern)%bool then
        match nth_error gs 1 with
        | Some g => int_of_str g
        | None => None
        end
      else None
  | _ => None
  end.

(** A selection confirmed to [r] replaces the conversation it had. *)
Definition conv_step (r : ref) (e : event) (v : option Z) : option Z :=
  match selected_of_event r e with
  | Some z => Some z
  | None => v
  end.

Definition apply_events (r : ref) (evs : list event) (v : option Z) : option Z :=
  fold_left (fun v e => conv_step r e v) evs v.

(** The most recent selection confirmed to [r] in a trace, if any. *)
Definition last_selecting (r : ref) (tr : list event) : option Z :=
  apply_events r tr None.

Definition is_spawn (r : ref) (e : event) : bool :=
  match e with
  | EvSpawn self _ _ => Nat.eqb self r
  | _ => false
  end.

Definition spawn_step (r : ref) (e : event) (n : nat) : nat :=
  (n + Nat.b2n (is_spawn r e))%nat.

(** The number of processes that driver [r] has spawned. *)
Definition count_spawn (r : ref) (tr : list event) : nat :=
  List.length (filter (is_spawn r) tr).

(** A test that waits for the selection confirmation by itself, without
    going through [select_conversation]. *)
Definition raw_select (c : call) : bool :=
  match c with
  | CExpect _ pattern _ => String.eqb pattern select_pattern
  | _ => false
  end.

Definition has_process {P : Pexpect} (c : Client) : bool :=
  match _process c with
  | Some _ => true
  | None => false
  end.

Definition processes {P : Pexpect} (c : Client) : nat := Nat.b2n (has_process c).

(** ** The message event of the specification

    The specification describes the queue as holding parsed events. The
    driver's queue holds Python values; [queued] is what a caller can find in
    it under either reading. *)

Record MessageEvent := mkMessageEvent {
  conversationId : string;
  senderHandle : string;
  body : string
}.

Inductive queued :=
| QLine (line : string)
| QEvent (e : MessageEvent).

(** The event demultiplexer as the specification words it: a matching line
    becomes a MessageEvent built from its three groups. *)
Definition spec_read_event (queue : list queued) (line : string) : list queued :=
  match Re.re_match r_message line with
  | Some [g1; g2; g3] =>
      (queue ++ [QEvent {| conversationId := g1; senderHandle := g2; body := g3 |}])%list
  | _ => queue
  end.

(** The text of a message line, rebuilt from its three groups. *)
Definition message_line (g1 g2 g3 : string) : string :=
  "** <" ++ g1 ++ "> <" ++ g2 ++ "> " ++ g3.

(** ** Predicates on calls *)

Section Logic.

Context {P : Pexpect}.

(** Every client object has the same [f] attribute in [st'] as in [st]. *)
Definition same {X} (f : Client -> X) (st st' : state) : Prop :=
  forall r, f (clients st' r) = f (clients st r).

Definition keeps {A} (R : state -> state -> Prop) (m : M A) : Prop :=
  forall st, R st (snd (m st)).

(** The events [evs] added between [st] and [st'] account for the attribute
    [proj] of every driver: it is what [step] makes of its old value, one
    event after the other. *)
Definition tracks {X} (proj : Client -> X) (step : ref -> event -> X -> X)
    (st st' : state) (evs : list event) : Prop :=
  trace st' = (trace st ++ evs)%list /\
  forall r, proj (clients st' r)
            = fold_left (fun x e => step r e x) evs (proj (clients st r)).

Definition tracked {X} (proj : Client -> X) (step : ref -> event -> X -> X)
    {A} (m : M A) : Prop :=
  forall st, exists evs, tracks proj step st (snd (m st)) evs.

(** Waiting for [pattern] says nothing about the attribute. *)
Definition expect_neutral {X} (step : ref -> event -> X -> X) (pattern : string) : Prop :=
  forall r self m x, step r (EvExpect self pattern m) x = x.

(** From [st], the call [m] takes the steps of [script] in order, and all of
    them when it returns. *)
Definition follows {A} (m : M A) (st : state) (script : list event) : Prop :=
  exists evs,
    trace (snd (m st)) = (trace st ++ evs)%list /\
    prefix (map erase evs) script /\
    (is_ok (fst (m st)) = true -> map erase evs = script).

(** The state in which one driver's queue has been replaced. *)
Definition with_messages (self : ref) (ms : list string) (st : state) : state :=
  {| clients := upd self (set_messages ms) (clients st); os := os st; trace := trace st |}.

Definition connect_env (c : Client) : list (string * string) :=
  [("LD_LIBRARY_PATH", np1sec_path c ++ ":" ++ ld_library_path c)].

Definition connect_args (c : Client) (room server : string) : list string :=
  ["--account"; xmpp_user c; "--password"; xmpp_password c;
   "--server"; server; "--port"; port c; "--room"; room].

Definition connect_command (gdb_ : bool) (c : Client) (room server : string)
    : string * list string :=
  if gdb_
  then ("gdb", (["-ex"; "run"; "--args"; jabberite_bin c] ++ connect_args c room server)%list)
  else (jabberite_bin c, connect_args c room server).

(** The state once [connect] has assigned [self.env]. *)
Definition with_env (self : ref) (st : state) : state :=
  {| clients := upd self (set_env (connect_env (clients st self))) (clients st);
     os := os st; trace := trace st |}.

Definition with_os (w : world) (st : state) : state :=
  {| clients := clients st; os := w; trace := trace st |}.

Definition with_event (e : event) (st : state) : state :=
  {| clients := clients st; os := os st; trace := (trace st ++ [e])%list |}.

(** The part of [select_conversation] that follows its [send_message]. *)
Definition select_tail (self : ref) : M Z :=
  bind (expect self select_pattern (-1)) (fun _ =>
  bind (match_group self 1) (fun g =>
  bind (py_int g) (fun z =>
  bind (set_client self (set_conversation_id (Some z))) (fun _ => ret z)))).

Definition with_conversation (self : ref) (z : Z) (st : state) : state :=
  {| clients := upd self (set_conversation_id (Some z)) (clients st);
     os := os st; trace := trace st |}.

End Logic.

(** ** More of the class *)

Section More.

Context {P : Pexpect}.

(** [Client.__repr__]. *)
Definition repr (c : Client) : string := "<JabberiteClient " ++ xmpp_user c ++ ">".

Definition created_pattern : string := "\*\* Created conversation (\d+):".

(** A line that the message pattern matches. *)
Definition is_message (line : string) : bool :=
  match Re.re_match r_message line with
  | Some _ => true
  | None => false
  end.

(** Every queue holds message lines only. *)
Definition queues_hold_messages (st : state) : Prop :=
  forall r, forallb is_message (messages (clients st r)) = true.

Definition has_at (s : string) : Prop := In "@"%char (list_ascii_of_string s).

End More.



(** ** Reads that take time *)

(** The scripted child again, with a [read_nonblocking] that takes [cost]
    ticks of its own on top of the time it waits: the clock moves with every
    call, also with one that finds its byte in the pipe. *)

Module Ticking.
Import Scripted.

Definition advance (d : Z) (w : sworld) : sworld := set_clock (clock w + d) w.

Definition t_read_nonblocking (cost : Z) (h : nat) (size budget : Z) (w : sworld)
    : res string * sworld :=
  let (r, w') := s_read_nonblocking h size budget w in (r, advance cost w').

Definition ticking (cost : Z) : Pexpect := {|
  world := sworld;
  handle := nat;
  time_time := clock;
  run_with_gdb := gdb;
  open_wb := s_open_wb;
  p_spawn := s_spawn;
  p_set_logfile := s_set_logfile;
  p_set_logfile_read := s_set_logfile_read;
  p_sendline := s_sendline;
  p_expect := s_expect;
  p_match := s_match;
  p_read_nonblocking := t_read_nonblocking cost;
  p_terminate := s_terminate;
  p_isalive := s_isalive
|}.

(** The output [late] reaches the pipe after time [t]: its first byte
    does, and the pipe is read in order. *)
Definition arrives_after (t : Z) (late : list (Z * ascii)) : Prop :=
  match late with
  | [] => True
  | (a, _) :: _ => t < a
  end.



(** How the loop of [read_line] ends on a child [c] whose pipe holds
    [early] and then [late]; [r] is the result with the state after it,
    [line] the text gathered before and [now] the time at entry. Either the
    read fails, with the timeout when the child is alive and the end of file
    when it is not, and the bytes [consumed] are out of the pipe; what is
    left of a live child's output has come after the deadline. Or the loop
    returns the first whole line of [early] and the pipe holds what follows
    it. *)
Definition read_line_ends (cost : Z) (h : nat) (end_ now : Z) (line : string) (c : child)
    (early late : list (Z * ascii)) (r : res string * @state (ticking cost)) : Prop :=
  (exists consumed rest,
      early = (consumed ++ rest)%list /\
      fst r = Raise (if alive c then TIMEOUT else EOF) /\
      nth_error (procs (os (snd r))) h = Some (set_out (rest ++ late) c) /\
      (alive c = true ->
       end_ <= clock (os (snd r)) /\
       arrives_after (Z.max now end_) (rest ++ late)%list))
  \/
  (exists pre a early',
      early = (pre ++ (a, newline) :: early')%list /\
      ~ In newline (map snd pre) /\
      fst r = Ok (line ++ string_of_list_ascii (map snd pre)) /\
      nth_error (procs (os (snd r))) h = Some (set_out (early' ++ late) c) /\
      now <= clock (os (snd r))
      <= Z.max now end_ + cost * Z.of_nat (S (List.length pre))).


End Ticking.

(** ** Example runs *)

Module Examples.
Import Scripted.

Definition alice : Client :=
  init "alice@localhost" "secret" 5222 "/opt/np1sec" "/opt/np1sec/lib" None.

Definition bob : Client :=
  init "bob@localhost" "secret" 5222 "/opt/np1sec" "/opt/np1sec/lib" None.

(** Two drivers, 0 for alice and 1 for bob, before [connect]: the children
    that will be spawned print [o0] and [o1]. *)
Definition fresh (o0 o1 : list (Z * ascii)) : state :=
  {| clients := fun r => if Nat.eqb r 0 then alice else bob;
     os := {| clock := 0; gdb := false; procs := []; programs := [o0; o1]; files := [] |};
     trace := [] |}.

Definition child_of (o : list (Z * ascii)) : child :=
  {| out := o; alive := true; buffer := []; match_ := None; stdin := [];
     logfile := None; logfile_read := true; timeout := 3600 |}.

(** The same two drivers, each with a live child that has not been read
    from yet. *)
Definition running (o0 o1 : list (Z * ascii)) : state :=
  {| clients := fun r => if Nat.eqb r 0 then set_process (Some 0%nat) alice
                         else set_process (Some 1%nat) bob;
     os := {| clock := 0; gdb := false; procs := [child_of o0; child_of o1];
              programs := []; files := [] |};
     trace := [] |}.

(** A chat message arrives whole at time 1. *)
Definition one_message : state :=
  running (line_at 1 "** <1> <alice> hi") [].

(** Two bytes of a line arrive at time 1, the rest of it at time 10. *)
Definition slow_line : state :=
  running (at_time 1 "ab" ++ line_at 10 "c")%list [].

(** A selection confirmation for conversation 7 is still unread when the
    one for conversation 5 arrives. *)
Definition stale_selection : state :=
  running (line_at 1 "** Selecting conversation 7"
           ++ line_at 2 "** Selecting conversation 5")%list [].

(** The outputs of the two children during a whole handshake. *)
Definition inviter_output : list (Z * ascii) :=
  (line_at 2 "** Connected" ++ line_at 5 "** Created conversation 1:"
   ++ line_at 6 "** Selecting conversation 1"
   ++ line_at 9 "** <1> alice invited user bob"
   ++ line_at 20 "bob joined the chat session")%list.

Definition invitee_output : list (Z * ascii) :=
  (line_at 3 "** Connected" ++ line_at 10 "** Invited to conversation 1"
   ++ line_at 12 "** Selecting conversation 1"
   ++ line_at 15 "you joined the chat session"
   ++ line_at 30 "** <1> <alice> hello world")%list.

Definition session : list call :=
  [CConnect 0%nat "room" "conference.localhost";
   CConnect 1%nat "room" "conference.localhost";
   CConnect 0%nat "room" "conference.localhost";
   CCreateConversation 0%nat;
   CSelectConversation 0%nat (Some 1);
   CInviteAndJoinConversation 0%nat 1%nat].

(** The state in which the inviter has selected conversation 1 and the
    handshake can begin. *)
Definition before_handshake : state :=
  run_calls 10
    [CConnect 0%nat "room" "conference.localhost";
     CConnect 1%nat "room" "conference.localhost";
     CCreateConversation 0%nat;
     CSelectConversation 0%nat (Some 1)]
    (fresh inviter_output invitee_output).

End Examples.

Module MoreExamples.
Import Scripted Examples.

(** Two lines, one at time 1 and one at time 2. *)
Definition two_lines : state :=
  running (line_at 1 "first" ++ line_at 2 "second")%list [].

(** The child answers a creation with conversation 4. *)
Definition creating : state :=
  running (line_at 1 "** Created conversation 4:") [].

(** The child confirms alice's invitation of bob. *)
Definition inviting : state :=
  running (line_at 1 "** <3> alice invited user bob") [].

(** Before [connect]: the first child connects at time 2, the second one
    never says anything. *)
Definition starting : state :=
  fresh (line_at 2 "** Connected") [].

(** The second child is invited to conversation 1 and joins it. *)
Definition joining : state :=
  running [] (line_at 1 "** Invited to conversation 1"
              ++ line_at 2 "** Selecting conversation 1"
              ++ line_at 3 "you joined the chat session")%list.


(** Before [connect], with children that never say anything. *)
Definition silent : state := fresh [] [].

End MoreExamples.

Module TickingExamples.
Import Scripted Ticking Examples.

(** The two drivers of [running], on a pexpect whose reads take [cost]
    ticks each. *)
Definition running_at (cost : Z) (o0 o1 : list (Z * ascii)) : @state (ticking cost) :=
  @mkState (ticking cost)
    (fun r =>
       if Nat.eqb r 0
       then @set_process (ticking cost) (Some 0%nat)
              (init "alice@localhost" "secret" 5222 "/opt/np1sec" "/opt/np1sec/lib" None)
       else @set_process (ticking cost) (Some 1%nat)
              (init "bob@localhost" "secret" 5222 "/opt/np1sec" "/opt/np1sec/lib" None))
    {| clock := 0; gdb := false; procs := [child_of o0; child_of o1];
       programs := []; files := [] |}
    [].

(** A line of twenty bytes is in the pipe, whole, and every read takes one
    tick. *)
Definition long_line : @state (ticking 1) :=
  running_at 1 (line_at 0 "aaaaaaaaaaaaaaaaaaaa") [].

(** The first child has exited and has left two bytes behind; reads take
    no time of their own. *)
Definition exited : @state (ticking 0) :=
  @mkState (ticking 0)
    (clients (running_at 0 [] []))
    {| clock := 3; gdb := false;
       procs := [{| out := at_time 1 "ab"; alive := false; buffer := [];
                    match_ := None; stdin := []; logfile := None;
                    logfile_read := true; timeout := 3600 |};
                 child_of []];
       programs := []; files := [] |}
    [].

(** Two bytes of a line are there at time 1 and the rest comes at time 10,
    while every read takes one tick. *)
Definition slow_line_at (cost : Z) : @state (ticking cost) :=
  running_at cost (at_time 1 "ab" ++ line_at 10 "c")%list [].


(** The child prints a prompt at time 1 and nothing else; the default
    timeout of its [expect] is 3600. *)
Definition prompt_only : @state (ticking 1) :=
  running_at 1 (at_time 1 "** Conn") [].

End TickingExamples.

(** * Properties *)

Unset Implicit Arguments.

(** ** Strings *)

Lemma string_of_list_ascii_app (a b : list ascii) :
  string_of_list_ascii (a ++ b) = string_of_list_ascii a ++ string_of_list_ascii b.
Proof.
  induction a as [|c a IH]; simpl; [reflexivity | now rewrite IH].
Qed.

Lemma append_nil_r (s : string) : s ++ "" = s.
Proof. induction s as [|c s IH]; simpl; [reflexivity | now rewrite IH]. Qed.

Lemma append_assoc (a b c : string) : (a ++ b) ++ c = a ++ (b ++ c).
Proof. induction a as [|x a IH]; simpl; [reflexivity | now rewrite IH]. Qed.

Lemma int_of_str_of_int (z : Z) : int_of_str (str_of_int z) = Some z.
Proof.
  unfold int_of_str, str_of_int.
  rewrite NilZero.isi.
  - simpl. now rewrite DecimalZ.of_to.
  - destruct z; simpl; try discriminate.
    intros [= H]. now apply (DecimalPos.Unsigned.to_uint_nonnil p).
  - destruct z; simpl; try discriminate.
    intros [= H]. now apply (DecimalPos.Unsigned.to_uint_nonnil p).
Qed.

(** ** The regular expression matcher *)

Module ReFacts.
Import Re.

Lemma take_drop ok s : (take_while ok s ++ drop_while ok s)%list = s.
Proof.
  induction s as [|c s IH]; simpl; [reflexivity|].
  destruct (ok c); simpl; [now rewrite IH | reflexivity].
Qed.

Lemma take_while_all ok s : forallb ok (take_while ok s) = true.
Proof.
  induction s as [|c s IH]; simpl; [reflexivity|].
  destruct (ok c) eqn:E; simpl; [now rewrite E | reflexivity].
Qed.

Lemma drop_while_length ok s : (List.length (drop_while ok s) <= List.length s)%nat.
Proof.
  induction s as [|c s IH]; simpl; [lia|].
  destruct (ok c); simpl; lia.
Qed.

Lemma firstn_take ok s :
  firstn (List.length s - List.length (drop_while ok s)) s = take_while ok s.
Proof.
  induction s as [|c s IH]; [reflexivity|].
  cbn [take_while drop_while].
  destruct (ok c) eqn:E.
  - pose proof (drop_while_length ok s) as L.
    change (List.length (c :: s)) with (S (List.length s)).
    replace (S (List.length s) - List.length (drop_while ok s))%nat
      with (S (List.length s - List.length (drop_while ok s))) by lia.
    cbn [firstn]. f_equal. exact IH.
  - now rewrite Nat.sub_diag.
Qed.

Lemma take_while_app ok a b :
  forallb ok a = true -> take_while ok (a ++ b) = (a ++ take_while ok b)%list.
Proof.
  induction a as [|c a IH]; simpl; [reflexivity|].
  intros H. apply andb_prop in H as [H1 H2]. now rewrite H1, IH.
Qed.

Lemma drop_while_app ok a b :
  forallb ok a = true -> drop_while ok (a ++ b) = drop_while ok b.
Proof.
  induction a as [|c a IH]; simpl; [reflexivity|].
  intros H. apply andb_prop in H as [H1 H2]. now rewrite H1, IH.
Qed.

(** When what follows [x*] can start with no [x], the star takes the whole
    run of [x]: backtracking never succeeds. *)
Lemma star_skip (A : Type) ok (k : bool -> list ascii -> option A) b s :
  (forall c s' b', ok c = true -> k b' (c :: s') = None) ->
  (forall b1 b2 s', k b1 s' = k b2 s') ->
  star ok k b s = k b (drop_while ok s).
Proof.
  intros H1 H2. revert b.
  induction s as [|c s IH]; intros b; simpl; [reflexivity|].
  destruct (ok c) eqn:E; [|reflexivity].
  rewrite IH. destruct (k false (drop_while ok s)) eqn:K.
  - rewrite <- K. apply H2.
  - rewrite (H1 c s b E). rewrite <- K. apply H2.
Qed.

Lemma digit_not_gt c : is_digit c = true -> Ascii.eqb ">" c = false.
Proof.
  destruct c as [[] [] [] [] [] [] [] []]; vm_compute; congruence.
Qed.

Lemma word_not_gt c : is_word c = true -> Ascii.eqb ">" c = false.
Proof.
  destruct c as [[] [] [] [] [] [] [] []]; vm_compute; congruence.
Qed.

Ltac lit H s :=
  let c := fresh "c" in let E := fresh "E" in
  destruct s as [|c s]; cbn [run atom_ok] in H; [discriminate H|];
  destruct (Ascii.eqb _ c) eqn:E in H; [apply Ascii.eqb_eq in E; subst c | discriminate H].

Lemma firstn_take_cons ok c s :
  ok c = true ->
  firstn (List.length (c :: s) - List.length (drop_while ok s)) (c :: s)
  = c :: take_while ok s.
Proof.
  intros E. pose proof (firstn_take ok (c :: s)) as F.
  cbn [drop_while take_while] in F. now rewrite E in F.
Qed.

Lemma run_message_sound s caps rest :
  run false r_message [] None true s = Some (caps, rest) ->
  exists d w b,
    caps = [d; w; b] /\
    s = (list_ascii_of_string "** <" ++ d ++ list_ascii_of_string "> <" ++ w
         ++ list_ascii_of_string "> " ++ b ++ rest)%list /\
    (rest = [] \/ rest = [newline]) /\
    d <> [] /\ forallb is_digit d = true /\
    w <> [] /\ forallb is_word w = true /\
    forallb not_newline b = true.
Proof.
  unfold r_message. intros H.
  cbn [run] in H.
  lit H s. lit H s. lit H s. lit H s.
  destruct s as [|c s]; [discriminate H|].
  cbn [atom_ok] in H.
  destruct (is_digit c) eqn:Dc; [|discriminate H].
  rewrite star_skip in H;
    [| intros c' s' b' Hc'; cbn [atom_ok] in Hc'; now rewrite (digit_not_gt _ Hc')
     | reflexivity].
  change (atom_ok false ADigit) with is_digit in H.
  pose proof (take_drop is_digit s) as Ds.
  pose proof (take_while_all is_digit s) as Dall.
  pose proof (firstn_take_cons is_digit c s Dc) as Fd.
  set (d := take_while is_digit s) in *.
  set (s1 := drop_while is_digit s) in *. clearbody d s1. subst s.
  lit H s1. lit H s1. lit H s1.
  destruct s1 as [|c' s]; cbn [run] in H; [discriminate H|].
  destruct (is_word c') eqn:Wc; [|discriminate H].
  rewrite star_skip in H;
    [| intros c'' s' b' Hc'; cbn [atom_ok] in Hc'; now rewrite (word_not_gt _ Hc')
     | reflexivity].
  change (atom_ok false AWord) with is_word in H.
  pose proof (take_drop is_word s) as Ws.
  pose proof (take_while_all is_word s) as Wall.
  pose proof (firstn_take_cons is_word c' s Wc) as Fw.
  set (w := take_while is_word s) in *.
  set (s2 := drop_while is_word s) in *. clearbody w s2. subst s.
  lit H s2. lit H s2.
  rewrite star_skip in H.
  2:{ intros c'' s' b' Hc'. cbn [atom_ok] in Hc'. simpl in Hc'.
      destruct s' as [|x s']; [|reflexivity].
      destruct (Ascii.eqb c'' newline); [discriminate Hc' | reflexivity]. }
  2:{ reflexivity. }
  change (atom_ok false AAny) with not_newline in H.
  pose proof (take_drop not_newline s2) as Bs.
  pose proof (take_while_all not_newline s2) as Ball.
  pose proof (firstn_take not_newline s2) as Fb.
  set (b := take_while not_newline s2) in *.
  set (s3 := drop_while not_newline s2) in *. clearbody b s3. subst s2.
  rewrite Fd, Fw, Fb in H.
  assert (R : Some (((([] ++ [c :: d]) ++ [c' :: w]) ++ [b])%list, s3) = Some (caps, rest) /\ (s3 = [] \/ s3 = [newline])).
  { destruct s3 as [|x [|y s3]]; [split; [exact H | now left] | | discriminate H].
    destruct (Ascii.eqb x newline) eqn:E; [|discriminate H].
    apply Ascii.eqb_eq in E. subst x. split; [exact H | now right]. }
  destruct R as [R1 R2]. injection R1 as <- <-.
  exists (c :: d), (c' :: w), b. simpl.
  repeat split; try easy.
  - now rewrite Dc.
  - now rewrite Wc.
Qed.

Lemma firstn_app_exact (a x : list ascii) :
  firstn (List.length (a ++ x) - List.length x) (a ++ x) = a.
Proof.
  rewrite length_app. replace (List.length a + List.length x - List.length x)%nat
    with (List.length a + 0)%nat by lia.
  rewrite firstn_app_2. simpl. apply app_nil_r.
Qed.

Lemma firstn_cons_app_exact c (a x : list ascii) :
  firstn (List.length (c :: a ++ x) - List.length x) (c :: a ++ x) = c :: a.
Proof. exact (firstn_app_exact (c :: a) x). Qed.

Lemma drop_not_newline_end b rest :
  forallb not_newline b = true -> rest = [] \/ rest = [newline] ->
  drop_while not_newline (b ++ rest) = rest.
Proof.
  intros Hb [-> | ->]; rewrite (drop_while_app _ _ _ Hb); reflexivity.
Qed.

Lemma run_message_complete d w b rest :
  d <> [] -> forallb is_digit d = true ->
  w <> [] -> forallb is_word w = true ->
  forallb not_newline b = true ->
  rest = [] \/ rest = [newline] ->
  run false r_message [] None true
    (list_ascii_of_string "** <" ++ d ++ list_ascii_of_string "> <" ++ w
       ++ list_ascii_of_string "> " ++ b ++ rest)%list
  = Some ([d; w; b], rest).
Proof.
  intros Hd Dd Hw Ww Bb Hr.
  destruct d as [|c d]; [congruence|]. destruct w as [|c' w]; [congruence|].
  cbn [forallb] in Dd, Ww.
  apply andb_prop in Dd as [Dc Dd]. apply andb_prop in Ww as [Wc Ww].
  unfold r_message. cbn [list_ascii_of_string app run atom_ok].
  rewrite !Ascii.eqb_refl, Dc.
  rewrite star_skip;
    [| intros c'' s' b' Hc'; cbn [atom_ok] in Hc'; now rewrite (digit_not_gt _ Hc')
     | reflexivity].
  change (atom_ok false ADigit) with is_digit.
  rewrite (drop_while_app _ _ _ Dd).
  change (is_digit ">") with false.
  cbn [drop_while]. change (is_digit ">") with false. cbv iota.
  rewrite !Ascii.eqb_refl, Wc.
  rewrite star_skip;
    [| intros c'' s' b' Hc'; cbn [atom_ok] in Hc'; now rewrite (word_not_gt _ Hc')
     | reflexivity].
  change (atom_ok false AWord) with is_word.
  rewrite (drop_while_app _ _ _ Ww).
  cbn [drop_while]. change (is_word ">") with false. cbv iota.
  rewrite !Ascii.eqb_refl.
  rewrite star_skip.
  2:{ intros c'' s' b' Hc'. cbn [atom_ok] in Hc'. simpl in Hc'.
      destruct s' as [|x s']; [|reflexivity].
      destruct (Ascii.eqb c'' newline); [discriminate Hc' | reflexivity]. }
  2:{ reflexivity. }
  change (atom_ok false AAny) with not_newline.
  rewrite (drop_not_newline_end _ _ Bb Hr).
  rewrite !firstn_cons_app_exact, firstn_app_exact.
  destruct Hr as [-> | ->]; reflexivity.
Qed.

Lemma list_ascii_of_string_app (a b : string) :
  list_ascii_of_string (a ++ b) = (list_ascii_of_string a ++ list_ascii_of_string b)%list.
Proof.
  induction a as [|c a IH]; simpl; [reflexivity | now rewrite IH].
Qed.

(** A line that matches the message pattern is its three groups between the
    fixed delimiters, up to the one final newline that the dollar sign
    tolerates. *)
Lemma re_match_message line gs :
  re_match r_message line = Some gs ->
  exists g1 g2 g3,
    gs = [g1; g2; g3] /\
    (line = message_line g1 g2 g3 \/ line = message_line g1 g2 g3 ++ NL).
Proof.
  unfold re_match. intros H.
  destruct (run false r_message [] None true (list_ascii_of_string line))
    as [[caps rest]|] eqn:R; [|discriminate H].
  injection H as <-.
  apply run_message_sound in R as (d & w & b & -> & E & Hr & _).
  exists (string_of_list_ascii d), (string_of_list_ascii w), (string_of_list_ascii b).
  split; [reflexivity|].
  rewrite <- (string_of_list_ascii_of_string line), E.
  unfold message_line.
  rewrite !string_of_list_ascii_app, !string_of_list_ascii_of_string.
  destruct Hr as [-> | ->]; [left | right]; simpl;
    repeat (progress (rewrite ?append_nil_r, ?append_assoc; simpl)); reflexivity.
Qed.

(** Conversely, every line of that shape matches, with those groups. *)
Lemma message_line_matches g1 g2 g3 :
  g1 <> "" -> forallb is_digit (list_ascii_of_string g1) = true ->
  g2 <> "" -> forallb is_word (list_ascii_of_string g2) = true ->
  forallb not_newline (list_ascii_of_string g3) = true ->
  re_match r_message (message_line g1 g2 g3) = Some [g1; g2; g3].
Proof.
  intros H1 D1 H2 D2 D3. unfold re_match, message_line.
  rewrite !list_ascii_of_string_app.
  rewrite <- (app_nil_r (list_ascii_of_string g3)).
  rewrite run_message_complete; auto.
  - simpl. now rewrite !string_of_list_ascii_of_string.
  - destruct g1; [congruence | discriminate].
  - destruct g2; [congruence | discriminate].
Qed.

End ReFacts.

(** ** The monad and the frame of each method *)

Create HintDb keeps.
Create HintDb tracked.

Section DriverFacts.

Context {P : Pexpect}.

Lemma state_eta (st : state) :
  {| clients := clients st; os := os st; trace := trace st |} = st.
Proof. now destruct st. Qed.

Lemma bind_ok {A B} (m : M A) (k : A -> M B) st a st1 :
  m st = (Ok a, st1) -> bind m k st = k a st1.
Proof. unfold bind. now intros ->. Qed.

Lemma bind_raise {A B} (m : M A) (k : A -> M B) st e st1 :
  m st = (Raise e, st1) -> bind m k st = (Raise e, st1).
Proof. unfold bind. now intros ->. Qed.

Lemma bind_out_of_fuel {A B} (m : M A) (k : A -> M B) st st1 :
  m st = (OutOfFuel, st1) -> bind m k st = (OutOfFuel, st1).
Proof. unfold bind. now intros ->. Qed.


Lemma bind_inv_ok {A B} (m : M A) (k : A -> M B) st b st' :
  bind m k st = (Ok b, st') ->
  exists a st1, m st = (Ok a, st1) /\ k a st1 = (Ok b, st').
Proof.
  unfold bind. destruct (m st) as [[a|e1|] st1]; intros H; try discriminate H.
  now exists a, st1.
Qed.

(** *** Frames: attributes that a call leaves alone *)

Section Same.
Context {X : Type} (f : Client -> X).

Lemma same_refl st : same f st st.
Proof. intros r. reflexivity. Qed.

Lemma same_trans st1 st2 st3 : same f st1 st2 -> same f st2 st3 -> same f st1 st3.
Proof. intros H1 H2 r. now rewrite H2, H1. Qed.

Lemma keeps_ret {A} (a : A) : keeps (same f) (ret a).
Proof. intros st. apply same_refl. Qed.

Lemma keeps_raise {A} e : keeps (same f) (raise e : M A).
Proof. intros st. apply same_refl. Qed.

Lemma keeps_out_of_fuel {A} : keeps (same f) (out_of_fuel : M A).
Proof. intros st. apply same_refl. Qed.

Lemma keeps_bind {A B} (m : M A) (k : A -> M B) :
  keeps (same f) m -> (forall a, keeps (same f) (k a)) -> keeps (same f) (bind m k).
Proof.
  intros Hm Hk st. unfold bind. specialize (Hm st).
  destruct (m st) as [[a|e|] st1]; simpl in *; try exact Hm.
  eapply same_trans; [exact Hm | apply Hk].
Qed.

Lemma keeps_get_client self : keeps (same f) (get_client self).
Proof. intros st. apply same_refl. Qed.

Lemma keeps_get_os : keeps (same f) get_os.
Proof. intros st. apply same_refl. Qed.

Lemma keeps_lift_os {A} (g : world -> res A * world) : keeps (same f) (lift_os g).
Proof. intros st r. unfold lift_os. now destruct (g (os st)). Qed.

Lemma keeps_modify_os g : keeps (same f) (modify_os g).
Proof. intros st r. reflexivity. Qed.

Lemma keeps_log e : keeps (same f) (log e).
Proof. intros st r. reflexivity. Qed.

Lemma keeps_set_client self g :
  (forall c, f (g c) = f c) -> keeps (same f) (set_client self g).
Proof.
  intros H st r. simpl. unfold upd. destruct (Nat.eqb r self); [apply H | reflexivity].
Qed.

Lemma keeps_process_attr self attr : keeps (same f) (process_attr self attr).
Proof.
  intros st r. unfold process_attr, bind, get_client.
  now destruct (_process (clients st self)).
Qed.

Ltac keeps_tac :=
  repeat first
    [ simple apply keeps_ret | simple apply keeps_raise | simple apply keeps_out_of_fuel
    | simple apply keeps_get_client | simple apply keeps_get_os | simple apply keeps_lift_os
    | simple apply keeps_modify_os | simple apply keeps_log
    | simple apply keeps_process_attr
    | simple apply keeps_set_client; solve [auto]
    | solve [auto with keeps nocore]
    | simple apply keeps_bind; [|intros ?]
    | match goal with
      | |- keeps _ (match ?x with _ => _ end) => destruct x
      | |- keeps _ (if ?x then _ else _) => destruct x
      end ].

Lemma keeps_set_debug self enable : keeps (same f) (set_debug self enable).
Proof. unfold set_debug. keeps_tac. Qed.

Lemma keeps_send_message self message : keeps (same f) (send_message self message).
Proof. unfold send_message. keeps_tac. Qed.

Lemma keeps_expect self pattern timeout : keeps (same f) (expect self pattern timeout).
Proof. unfold expect. keeps_tac. Qed.

Lemma keeps_read_line_loop fuel self end_ line :
  keeps (same f) (read_line_loop fuel self end_ line).
Proof.
  revert line. induction fuel as [|fuel IH]; intros line; simpl; keeps_tac.
Qed.

Lemma keeps_read_line fuel self timeout : keeps (same f) (read_line fuel self timeout).
Proof. unfold read_line. keeps_tac. apply keeps_read_line_loop. Qed.

Lemma keeps_match_group self n : keeps (same f) (match_group self n).
Proof. unfold match_group. keeps_tac. Qed.

Lemma keeps_py_int s : keeps (same f) (py_int s).
Proof. unfold py_int. keeps_tac. Qed.

Hint Resolve keeps_send_message keeps_expect keeps_read_line keeps_match_group
  keeps_py_int : keeps.

Lemma keeps_create_conversation self : keeps (same f) (create_conversation self).
Proof. unfold create_conversation. keeps_tac. Qed.

Lemma keeps_invite_conversation self u : keeps (same f) (invite_conversation self u).
Proof. unfold invite_conversation. keeps_tac. Qed.

Lemma keeps_stop self : keeps (same f) (stop self).
Proof. unfold stop. keeps_tac. Qed.

Hint Resolve keeps_invite_conversation : keeps.

Section Messages.
Hypothesis f_messages : forall ms c, f (set_messages ms c) = f c.

Lemma keeps_read_event fuel self timeout : keeps (same f) (read_event fuel self timeout).
Proof. unfold read_event. keeps_tac. Qed.

Lemma keeps_read_message_loop n fuel self end_ :
  keeps (same f) (read_message_loop n fuel self end_).
Proof.
  pose proof keeps_read_event as E.
  induction n as [|n IH]; simpl; keeps_tac.
Qed.

Lemma keeps_read_message fuel self timeout :
  keeps (same f) (read_message fuel self timeout).
Proof. unfold read_message. keeps_tac. apply keeps_read_message_loop. Qed.
End Messages.

Section Conversation.
Hypothesis f_conversation : forall v c, f (set_conversation_id v c) = f c.

Lemma keeps_select_conversation self id : keeps (same f) (select_conversation self id).
Proof. unfold select_conversation. keeps_tac. Qed.

Hint Resolve keeps_select_conversation : keeps.

Lemma keeps_join_conversation self id : keeps (same f) (join_conversation self id).
Proof. unfold join_conversation. keeps_tac. Qed.

Hint Resolve keeps_join_conversation : keeps.

Lemma keeps_invite_and_join_conversation self client :
  keeps (same f) (invite_and_join_conversation self client).
Proof. unfold invite_and_join_conversation. keeps_tac. Qed.
End Conversation.

Section Connect.
Hypothesis f_env : forall e c, f (set_env e c) = f c.
Hypothesis f_process : forall h c, f (set_process h c) = f c.

Lemma keeps_connect self room server : keeps (same f) (connect self room server).
Proof.
  unfold connect.
  apply keeps_bind; [apply keeps_get_client | intros c].
  apply keeps_bind; [apply keeps_set_client; auto | intros _].
  apply keeps_bind; [apply keeps_get_os | intros w].
  destruct (run_with_gdb w); destruct (_process c); keeps_tac.
Qed.
End Connect.

End Same.

(** ** A driver without a process *)

(** C9. Each operation that needs the child process (send_message, expect,
    set_debug, read_line), called on a driver that has spawned none, fails:
    the attribute it needs is looked up on None, which is the error the
    specification calls ProcessUnavailableError. *)
Theorem no_process_raises self st :
  _process (clients st self) = None ->
  (forall message,
      fst (send_message self message st) = Raise (AttributeError "sendline")) /\
  (forall pattern timeout,
      fst (expect self pattern timeout st) = Raise (AttributeError "expect")) /\
  (forall enable,
      fst (set_debug self enable st) = Raise (AttributeError "logfile")) /\
  (forall fuel timeout,
      fst (read_line (S fuel) self timeout st) = Raise (AttributeError "read_nonblocking")).
Proof.
  intros H. repeat split.
  - intros message. unfold send_message, process_attr, bind, get_client. now rewrite H.
  - intros pattern timeout. unfold expect, process_attr, bind, get_client. now rewrite H.
  - intros [|]; unfold set_debug, process_attr, bind, get_client, modify_os; simpl;
      now rewrite H.
  - intros fuel timeout. unfold read_line, bind, get_os. simpl.
    unfold process_attr, bind, get_client. now rewrite H.
Qed.

(** ** The primitive calls, unfolded *)

Lemma send_message_unfold self message st :
  send_message self message st =
    match _process (clients st self) with
    | None => (Raise (AttributeError "sendline"), st)
    | Some h =>
        match p_sendline h message (os st) with
        | (Ok n, w) => (Ok n, with_event (EvSend self message) (with_os w st))
        | (Raise e, w) => (Raise e, with_os w st)
        | (OutOfFuel, w) => (OutOfFuel, with_os w st)
        end
    end.
Proof.
  unfold send_message, process_attr, bind, get_client, lift_os, log, ret, raise.
  destruct (_process (clients st self)) as [h|]; [|reflexivity].
  destruct (p_sendline h message (os st)) as [[n| |] w]; reflexivity.
Qed.

Lemma expect_unfold self pattern timeout st :
  expect self pattern timeout st =
    match _process (clients st self) with
    | None => (Raise (AttributeError "expect"), st)
    | Some h =>
        match p_expect h pattern timeout (os st) with
        | (Ok n, w) => (Ok n, with_event (EvExpect self pattern (p_match h w)) (with_os w st))
        | (Raise e, w) => (Raise e, with_os w st)
        | (OutOfFuel, w) => (OutOfFuel, with_os w st)
        end
    end.
Proof.
  unfold expect, process_attr, bind, get_client, get_os, lift_os, log, ret, raise.
  destruct (_process (clients st self)) as [h|]; [|reflexivity].
  destruct (p_expect h pattern timeout (os st)) as [[n| |] w]; reflexivity.
Qed.

Lemma match_group_unfold self n st :
  match_group self n st =
    match _process (clients st self) with
    | None => (Raise (AttributeError "match"), st)
    | Some h =>
        match p_match h (os st) with
        | None => (Raise (AttributeError "group"), st)
        | Some gs =>
            match nth_error gs n with
            | Some g => (Ok g, st)
            | None => (Raise IndexError, st)
            end
        end
    end.
Proof.
  unfold match_group, process_attr, bind, get_client, get_os, ret, raise.
  destruct (_process (clients st self)) as [h|]; [|reflexivity].
  destruct (p_match h (os st)) as [gs|]; [|reflexivity].
  destruct (nth_error gs n); reflexivity.
Qed.

Lemma select_tail_unfold self st :
  select_tail self st =
    match _process (clients st self) with
    | None => (Raise (AttributeError "expect"), st)
    | Some h =>
        match p_expect h select_pattern (-1) (os st) with
        | (Ok _, w) =>
            let st1 := with_event (EvExpect self select_pattern (p_match h w)) (with_os w st) in
            match p_match h w with
            | None => (Raise (AttributeError "group"), st1)
            | Some gs =>
                match nth_error gs 1 with
                | None => (Raise IndexError, st1)
                | Some g =>
                    match int_of_str g with
                    | None => (Raise ValueError, st1)
                    | Some z => (Ok z, with_conversation self z st1)
                    end
                end
            end
        | (Raise e, w) => (Raise e, with_os w st)
        | (OutOfFuel, w) => (OutOfFuel, with_os w st)
        end
    end.
Proof.
  unfold select_tail. unfold bind at 1. rewrite expect_unfold.
  destruct (_process (clients st self)) as [h|] eqn:Hp; [|reflexivity].
  destruct (p_expect h select_pattern (-1) (os st)) as [[n| |] w]; try reflexivity.
  cbv zeta. unfold bind at 1. rewrite match_group_unfold. cbn [with_event with_os clients os].
  rewrite Hp.
  destruct (p_match h w) as [gs|]; [|reflexivity].
  destruct (nth_error gs 1) as [g|]; [|reflexivity].
  unfold bind, py_int, set_client, ret, raise.
  destruct (int_of_str g); reflexivity.
Qed.

Lemma select_conversation_unfold self id :
  select_conversation self id =
    bind (send_message self ("/select " ++ format_id id)) (fun _ => select_tail self).
Proof. reflexivity. Qed.

(** ** The message queue *)

Lemma upd_same self g (cs : ref -> Client) : upd self g cs self = g (cs self).
Proof. unfold upd. now rewrite Nat.eqb_refl. Qed.

Lemma upd_other self g (cs : ref -> Client) r : r <> self -> upd self g cs r = cs r.
Proof. unfold upd. intros H. apply Nat.eqb_neq in H. now rewrite H. Qed.

(** What [read_event] does once its line is read. *)
Lemma read_event_after_line fuel self timeout st line st1 :
  read_line fuel self timeout st = (Ok line, st1) ->
  read_event fuel self timeout st =
    (Ok tt,
     match Re.re_match r_message line with
     | Some _ => with_messages self (messages (clients st1 self) ++ [line]) st1
     | None => st1
     end).
Proof.
  intros H. unfold read_event. rewrite (bind_ok _ _ _ _ _ H).
  destruct (Re.re_match r_message line); reflexivity.
Qed.

Lemma read_event_not_ok fuel self timeout st r st1 :
  read_line fuel self timeout st = (r, st1) -> is_ok r = false ->
  snd (read_event fuel self timeout st) = st1 /\
  is_ok (fst (read_event fuel self timeout st)) = false.
Proof.
  intros H Hr. unfold read_event, bind. rewrite H.
  destruct r; [discriminate Hr | now split | now split].
Qed.

(** A returning [read_event] left every driver as it was, or put one line
    at the back of its own driver's queue. *)
Lemma read_event_ok fuel self timeout st st1 :
  read_event fuel self timeout st = (Ok tt, st1) ->
  (forall r, clients st1 r = clients st r) \/
  (exists line,
      messages (clients st1 self) = (messages (clients st self) ++ [line])%list /\
      forall r, r <> self -> clients st1 r = clients st r).
Proof.
  intros H.
  pose proof (keeps_read_line (fun c => c) fuel self timeout st) as K.
  destruct (read_line fuel self timeout st) as [[line| |] st0] eqn:L.
  - rewrite (read_event_after_line _ _ _ _ _ _ L) in H. injection H as <-.
    simpl in K. destruct (Re.re_match r_message line).
    + right. exists line. simpl. rewrite upd_same. simpl. rewrite (K self). split.
      * reflexivity.
      * intros r Hr. rewrite upd_other by exact Hr. apply K.
    + left. exact K.
  - unfold read_event, bind in H. rewrite L in H. discriminate H.
  - unfold read_event, bind in H. rewrite L in H. discriminate H.
Qed.

Lemma read_event_raise fuel self timeout st e st1 :
  read_event fuel self timeout st = (Raise e, st1) ->
  forall r, clients st1 r = clients st r.
Proof.
  intros H.
  pose proof (keeps_read_line (fun c => c) fuel self timeout st) as K.
  destruct (read_line fuel self timeout st) as [[line| |] st0] eqn:L.
  - rewrite (read_event_after_line _ _ _ _ _ _ L) in H. discriminate H.
  - unfold read_event, bind in H. rewrite L in H. injection H as _ <-. exact K.
  - unfold read_event, bind in H. rewrite L in H. discriminate H.
Qed.

(** With a message in the queue, the loop of [read_message] returns the
    oldest one at once, and reads nothing. *)
Lemma read_message_loop_pop n fuel self end_ st m ms :
  messages (clients st self) = m :: ms ->
  read_message_loop (S n) fuel self end_ st = (Ok m, with_messages self ms st).
Proof.
  intros H. simpl. unfold bind, get_client. rewrite H. reflexivity.
Qed.

Lemma read_message_pop n self timeout st m ms :
  messages (clients st self) = m :: ms ->
  read_message (S n) self timeout st = (Ok m, with_messages self ms st).
Proof.
  intros H. unfold read_message, bind, get_os.
  now apply read_message_loop_pop.
Qed.

Lemma read_message_loop_empty n fuel self end_ st :
  messages (clients st self) = [] ->
  read_message_loop (S n) fuel self end_ st =
    bind (read_event fuel self (Z.max 0 (end_ - time_time (os st))))
         (fun _ => read_message_loop n fuel self end_) st.
Proof.
  intros H. simpl. unfold bind at 1. unfold get_client. rewrite H.
  unfold bind at 1. unfold get_os. reflexivity.
Qed.



(** C4. The queue is first in, first out. [read_event] changes a queue only
    by putting a line at its back; [read_message] on a queue that is not
    empty removes and returns its oldest element, and reads nothing; so two
    lines queued one after the other come out in that order. In the loop of
    [read_message], when the [read_event] it has just called has queued a
    line, that line is returned before any other line is read. *)
Theorem message_queue_fifo self :
  (forall fuel timeout st r,
      let st' := snd (read_event fuel self timeout st) in
      messages (clients st' r) = messages (clients st r) \/
      (r = self /\
       exists line, messages (clients st' r) = (messages (clients st r) ++ [line])%list)) /\
  (forall n timeout st m ms,
      messages (clients st self) = m :: ms ->
      read_message (S n) self timeout st = (Ok m, with_messages self ms st)) /\
  (forall n1 n2 t1 t2 st e1 e2 rest,
      messages (clients st self) = e1 :: e2 :: rest ->
      exists st1 st2,
        read_message (S n1) self t1 st = (Ok e1, st1) /\
        read_message (S n2) self t2 st1 = (Ok e2, st2) /\
        messages (clients st2 self) = rest /\
        os st2 = os st /\ trace st2 = trace st) /\
  (forall n timeout st st1 m ms,
      messages (clients st self) = [] ->
      read_event (S (S n)) self
        (Z.max 0 (time_time (os st) + timeout - time_time (os st))) st = (Ok tt, st1) ->
      messages (clients st1 self) = m :: ms ->
      read_message (S (S n)) self timeout st = (Ok m, with_messages self ms st1)).
Proof.
  repeat split.
  - intros fuel timeout st r st'. subst st'.
    destruct (read_event fuel self timeout st) as [[[]| |] st1] eqn:E; simpl.
    + apply read_event_ok in E as [E | (line & E1 & E2)].
      * left. now rewrite E.
      * destruct (Nat.eq_dec r self) as [-> | N].
        -- right. split; [reflexivity | now exists line].
        -- left. now rewrite E2.
    + left. now rewrite (read_event_raise _ _ _ _ _ _ E).
    + left.
      pose proof (keeps_read_line (fun c => c) fuel self timeout st) as K.
      destruct (read_line fuel self timeout st) as [[line| |] st0] eqn:L.
      * rewrite (read_event_after_line _ _ _ _ _ _ L) in E. discriminate E.
      * unfold read_event, bind in E. rewrite L in E. discriminate E.
      * unfold read_event, bind in E. rewrite L in E. injection E as <-.
        f_equal. apply (K r).
  - intros n timeout st m ms H. now apply read_message_pop.
  - intros n1 n2 t1 t2 st e1 e2 rest H.
    exists (with_messages self (e2 :: rest) st),
           (with_messages self rest (with_messages self (e2 :: rest) st)).
    split; [now apply read_message_pop|].
    split; [apply read_message_pop; simpl; now rewrite upd_same|].
    simpl. rewrite upd_same. now simpl.
  - intros n timeout st st1 m ms Q E Q1.
    unfold read_message, bind at 1. unfold get_os at 1.
    rewrite (read_message_loop_empty _ _ _ _ _ Q).
    rewrite (bind_ok _ _ _ _ _ E).
    now apply read_message_loop_pop.
Qed.

(** ** Accounting for an attribute by the trace *)

Lemma last_char_app a b : b <> "" -> last_char (a ++ b) = last_char b.
Proof.
  intros Hb. induction a as [|c a IH]; simpl; [reflexivity|].
  rewrite IH. destruct (a ++ b) eqn:E; [|reflexivity].
  destruct a; simpl in E; [congruence | discriminate E].
Qed.

Lemma connected_not_select : "\*\* Connected" <> select_pattern.
Proof. discriminate. Qed.

Lemma created_not_select : "\*\* Created conversation (\d+):" <> select_pattern.
Proof. discriminate. Qed.

Lemma you_joined_not_select : "you joined the chat session" <> select_pattern.
Proof. discriminate. Qed.

Lemma invite_not_select a b :
  "\*\* <(\d)> " ++ a ++ " invited user " ++ b <> select_pattern.
Proof. simpl. discriminate. Qed.

Lemma invited_not_select a : "\*\* Invited to conversation " ++ a <> select_pattern.
Proof. simpl. discriminate. Qed.

Lemma joined_not_select a : a ++ " joined the chat session" <> select_pattern.
Proof.
  intros H. apply (f_equal last_char) in H.
  rewrite last_char_app in H by discriminate. discriminate H.
Qed.

Section Tracked.
Context {X : Type} (proj : Client -> X) (step : ref -> event -> X -> X).

Lemma tracks_refl st : tracks proj step st st [].
Proof. split; [now rewrite app_nil_r | reflexivity]. Qed.

Lemma tracks_trans st1 st2 st3 e1 e2 :
  tracks proj step st1 st2 e1 -> tracks proj step st2 st3 e2 ->
  tracks proj step st1 st3 (e1 ++ e2).
Proof.
  intros [T1 C1] [T2 C2]. split.
  - now rewrite T2, T1, app_assoc.
  - intros r. now rewrite fold_left_app, <- C1, <- C2.
Qed.

Lemma tracked_ret {A} (a : A) : tracked proj step (ret a).
Proof. intros st. exists []. apply tracks_refl. Qed.

Lemma tracked_raise {A} e : tracked proj step (raise e : M A).
Proof. intros st. exists []. apply tracks_refl. Qed.

Lemma tracked_out_of_fuel {A} : tracked proj step (out_of_fuel : M A).
Proof. intros st. exists []. apply tracks_refl. Qed.

Lemma tracked_get_client self : tracked proj step (get_client self).
Proof. intros st. exists []. apply tracks_refl. Qed.

Lemma tracked_get_os : tracked proj step get_os.
Proof. intros st. exists []. apply tracks_refl. Qed.

Lemma tracked_lift_os {A} (g : world -> res A * world) : tracked proj step (lift_os g).
Proof.
  intros st. exists []. unfold lift_os. destruct (g (os st)). simpl.
  split; simpl; [now rewrite app_nil_r | reflexivity].
Qed.

Lemma tracked_modify_os g : tracked proj step (modify_os g).
Proof. intros st. exists []. split; simpl; [now rewrite app_nil_r | reflexivity]. Qed.

Lemma tracked_log e : (forall r x, step r e x = x) -> tracked proj step (log e).
Proof.
  intros H st. exists [e]. split; simpl; [reflexivity|].
  intros r. now rewrite H.
Qed.

Lemma tracked_set_client self g :
  (forall c, proj (g c) = proj c) -> tracked proj step (set_client self g).
Proof.
  intros H st. exists []. split; simpl; [now rewrite app_nil_r|].
  intros r. unfold upd. destruct (Nat.eqb r self); [apply H | reflexivity].
Qed.

Lemma tracked_bind {A B} (m : M A) (k : A -> M B) :
  tracked proj step m -> (forall a, tracked proj step (k a)) ->
  tracked proj step (bind m k).
Proof.
  intros Hm Hk st. unfold bind. destruct (Hm st) as [e1 H1].
  destruct (m st) as [[a|e|] st1]; simpl in *; try (now exists e1).
  destruct (Hk a st1) as [e2 H2]. exists (e1 ++ e2)%list.
  eapply tracks_trans; eassumption.
Qed.

Lemma tracked_process_attr self attr : tracked proj step (process_attr self attr).
Proof.
  intros st. exists []. unfold process_attr, bind, get_client.
  destruct (_process (clients st self)); apply tracks_refl.
Qed.

Ltac tracked_tac :=
  repeat first
    [ simple apply tracked_ret | simple apply tracked_raise
    | simple apply tracked_out_of_fuel
    | simple apply tracked_get_client | simple apply tracked_get_os
    | simple apply tracked_lift_os | simple apply tracked_modify_os
    | simple apply tracked_process_attr
    | simple apply tracked_log; solve [auto]
    | simple apply tracked_set_client; solve [auto]
    | solve [auto with tracked nocore]
    | simple apply tracked_bind; [|intros ?]
    | match goal with
      | |- tracked _ _ (match ?x with _ => _ end) => destruct x
      | |- tracked _ _ (if ?x then _ else _) => destruct x
      end ].

Hypothesis step_send : forall r self line x, step r (EvSend self line) x = x.
Hypothesis step_read : forall r self now budget x, step r (EvRead self now budget) x = x.
Hypothesis proj_messages : forall ms c, proj (set_messages ms c) = proj c.
Hypothesis proj_env : forall e c, proj (set_env e c) = proj c.

Lemma tracked_set_debug self enable : tracked proj step (set_debug self enable).
Proof. unfold set_debug. tracked_tac. Qed.

Lemma tracked_send_message self message : tracked proj step (send_message self message).
Proof. unfold send_message. tracked_tac. Qed.

Lemma tracked_expect self pattern timeout :
  expect_neutral step pattern -> tracked proj step (expect self pattern timeout).
Proof. intros H. unfold expect. tracked_tac. Qed.

Lemma tracked_read_line_loop fuel self end_ line :
  tracked proj step (read_line_loop fuel self end_ line).
Proof. revert line. induction fuel as [|fuel IH]; intros line; simpl; tracked_tac. Qed.

Lemma tracked_read_line fuel self timeout : tracked proj step (read_line fuel self timeout).
Proof. unfold read_line. tracked_tac. apply tracked_read_line_loop. Qed.

Lemma tracked_match_group self n : tracked proj step (match_group self n).
Proof. unfold match_group. tracked_tac. Qed.

Lemma tracked_py_int s : tracked proj step (py_int s).
Proof. unfold py_int. tracked_tac. Qed.

Hint Resolve tracked_send_message tracked_read_line tracked_match_group
  tracked_py_int : tracked.

Lemma tracked_read_event fuel self timeout : tracked proj step (read_event fuel self timeout).
Proof. unfold read_event. tracked_tac. Qed.

Hint Resolve tracked_read_event : tracked.

Lemma tracked_read_message_loop n fuel self end_ :
  tracked proj step (read_message_loop n fuel self end_).
Proof. induction n as [|n IH]; simpl; tracked_tac. Qed.

Lemma tracked_read_message fuel self timeout :
  tracked proj step (read_message fuel self timeout).
Proof. unfold read_message. tracked_tac. apply tracked_read_message_loop. Qed.

Lemma tracked_stop self : tracked proj step (stop self).
Proof. unfold stop. tracked_tac. Qed.

Hypothesis step_expect : forall pattern, pattern <> select_pattern -> expect_neutral step pattern.

Lemma tracked_create_conversation self : tracked proj step (create_conversation self).
Proof.
  unfold create_conversation. tracked_tac.
  apply tracked_expect, step_expect, created_not_select.
Qed.

Lemma tracked_invite_conversation self u : tracked proj step (invite_conversation self u).
Proof.
  unfold invite_conversation. tracked_tac.
  apply tracked_expect, step_expect, invite_not_select.
Qed.

Lemma tracked_select_generic self id :
  expect_neutral step select_pattern ->
  (forall v c, proj (set_conversation_id v c) = proj c) ->
  tracked proj step (select_conversation self id).
Proof.
  intros H1 H2. unfold select_conversation. tracked_tac.
  now apply tracked_expect.
Qed.

Lemma tracked_connect_tail self h :
  tracked proj step
    (bind (modify_os (p_set_logfile h None)) (fun _ =>
     bind (modify_os (p_set_logfile_read h)) (fun _ =>
     bind (expect self "\*\* Connected" (-1)) (fun _ => ret tt)))).
Proof.
  tracked_tac. apply tracked_expect, step_expect, connected_not_select.
Qed.

Lemma tracked_connect_generic self room server :
  (forall r self command args x, step r (EvSpawn self command args) x = x) ->
  (forall h c, proj (set_process h c) = proj c) ->
  tracked proj step (connect self room server).
Proof.
  intros H1 H2. unfold connect.
  apply tracked_bind; [apply tracked_get_client | intros c].
  apply tracked_bind; [apply tracked_set_client; auto | intros _].
  apply tracked_bind; [apply tracked_get_os | intros w].
  destruct (run_with_gdb w); destruct (_process c); tracked_tac;
    apply tracked_expect, step_expect, connected_not_select.
Qed.

Hypothesis select_tracked : forall self id, tracked proj step (select_conversation self id).
Hypothesis connect_tracked :
  forall self room server, tracked proj step (connect self room server).

Lemma tracked_join_conversation self id : tracked proj step (join_conversation self id).
Proof.
  unfold join_conversation. tracked_tac.
  - apply tracked_expect, step_expect, invited_not_select.
  - apply tracked_expect, step_expect, you_joined_not_select.
Qed.

Lemma tracked_invite_and_join_conversation self client :
  tracked proj step (invite_and_join_conversation self client).
Proof.
  unfold invite_and_join_conversation. tracked_tac.
  - apply tracked_invite_conversation.
  - apply tracked_join_conversation.
  - apply tracked_expect, step_expect, joined_not_select.
Qed.

Lemma tracked_run_call fuel c st :
  raw_select c = false \/ expect_neutral step select_pattern ->
  exists evs, tracks proj step st (run_call fuel c st) evs.
Proof.
  intros H. destruct c; simpl.
  - apply tracked_set_debug.
  - apply tracked_send_message.
  - apply tracked_expect. destruct H as [H | H].
    + simpl in H. apply step_expect. intros ->. now rewrite String.eqb_refl in H.
    + destruct (String.eqb_spec pattern select_pattern) as [-> | N];
        [exact H | now apply step_expect].
  - apply tracked_read_line.
  - apply tracked_read_event.
  - apply tracked_read_message.
  - apply connect_tracked.
  - apply tracked_create_conversation.
  - apply select_tracked.
  - apply tracked_invite_conversation.
  - apply tracked_join_conversation.
  - apply tracked_invite_and_join_conversation.
  - apply tracked_stop.
Qed.

Lemma tracked_run_calls fuel cs st :
  (forall c, In c cs -> raw_select c = false) \/ expect_neutral step select_pattern ->
  exists evs, tracks proj step st (run_calls fuel cs st) evs.
Proof.
  revert st. induction cs as [|c cs IH]; intros st H; simpl.
  - exists []. apply tracks_refl.
  - destruct (tracked_run_call fuel c st) as [e1 H1].
    { destruct H as [H | H]; [left; apply H; now left | now right]. }
    destruct (IH (run_call fuel c st)) as [e2 H2].
    { destruct H as [H | H]; [left; intros c' Hc'; apply H; now right | now right]. }
    exists (e1 ++ e2)%list. eapply tracks_trans; eassumption.
Qed.

End Tracked.

(** ** Connecting *)

Lemma connect_unfold self room server st :
  connect self room server st =
    match _process (clients st self) with
    | Some _ => (Ok tt, with_env self st)
    | None =>
        let c := clients st self in
        let cmd := connect_command (run_with_gdb (os st)) c room server in
        bind (lift_os (p_spawn (fst cmd) (snd cmd) (connect_env c) 3600)) (fun h =>
        bind (set_client self (set_process (Some h))) (fun _ =>
        bind (log (EvSpawn self (fst cmd) (snd cmd))) (fun _ =>
        bind (modify_os (p_set_logfile h None)) (fun _ =>
        bind (modify_os (p_set_logfile_read h)) (fun _ =>
        bind (expect self "\*\* Connected" (-1)) (fun _ => ret tt))))))
          (with_env self st)
    end.
Proof.
  unfold connect. unfold bind at 1. unfold get_client at 1.
  unfold bind at 1. unfold set_client at 1.
  unfold bind at 1. unfold get_os at 1. cbn [os].
  unfold with_env, connect_command, connect_env, connect_args.
  destruct (run_with_gdb (os st)); destruct (_process (clients st self)); reflexivity.
Qed.

Lemma with_env_process self st r :
  _process (clients (with_env self st) r) = _process (clients st r).
Proof. simpl. unfold upd. now destruct (Nat.eqb r self). Qed.

(** *** The processes a driver has spawned *)

Lemma spawn_fold r evs n :
  fold_left (fun x e => spawn_step r e x) evs n = (n + count_spawn r evs)%nat.
Proof.
  revert n. induction evs as [|e evs IH]; intros n; simpl; [now rewrite Nat.add_0_r|].
  rewrite IH. unfold spawn_step, count_spawn. simpl.
  destruct (is_spawn r e); simpl; lia.
Qed.

Lemma count_spawn_app r a b :
  count_spawn r (a ++ b) = (count_spawn r a + count_spawn r b)%nat.
Proof. unfold count_spawn. now rewrite filter_app, length_app. Qed.

Lemma spawn_expect_neutral pattern : expect_neutral spawn_step pattern.
Proof. intros r self m x. unfold spawn_step. simpl. apply Nat.add_0_r. Qed.

Lemma connect_tracks_spawn self room server :
  tracked processes spawn_step (connect self room server).
Proof.
  intros st. rewrite connect_unfold.
  assert (E : tracks processes spawn_step st (with_env self st) []).
  { split; [simpl; now rewrite app_nil_r|].
    intros r. cbn [fold_left]. unfold processes, has_process.
    now rewrite (with_env_process self st r). }
  destruct (_process (clients st self)) eqn:Hp; [now exists []|].
  cbv zeta.
  set (cmd := connect_command _ _ _ _).
  unfold bind at 1. unfold lift_os at 1. cbn [os with_env].
  destruct (p_spawn (fst cmd) (snd cmd) (connect_env (clients st self)) 3600 (os st))
    as [[h| |] w]; cbn [snd]; try (exists []; exact E).
  unfold bind at 1. unfold set_client at 1.
  unfold bind at 1. unfold log at 1. cbn [clients os trace].
  match goal with
  | |- exists evs, tracks _ _ _ (snd (?tail ?st2)) evs =>
      destruct (tracked_connect_tail processes spawn_step
                  (fun p _ => spawn_expect_neutral p) self h st2) as [e2 H2];
      exists ([EvSpawn self (fst cmd) (snd cmd)] ++ e2)%list;
      apply (tracks_trans _ _ st st2); [|exact H2]
  end.
  split; [reflexivity|].
  intros r. cbn [clients fold_left]. unfold spawn_step, is_spawn, processes, has_process.
  unfold upd. rewrite (Nat.eqb_sym self r).
  destruct (Nat.eqb r self) eqn:R; simpl.
  - apply Nat.eqb_eq in R. subst r. rewrite Hp. reflexivity.
  - rewrite Nat.add_0_r. unfold upd. now rewrite R.
Qed.

Lemma spawn_accounted fuel cs st :
  exists evs, tracks processes spawn_step st (run_calls fuel cs st) evs.
Proof.
  apply tracked_run_calls; try reflexivity.
  - intros r self line x. apply Nat.add_0_r.
  - intros r self now budget x. apply Nat.add_0_r.
  - intros p _. apply spawn_expect_neutral.
  - intros self id. apply tracked_select_generic; try reflexivity.
    + intros r s line x. apply Nat.add_0_r.
    + apply spawn_expect_neutral.
  - apply connect_tracks_spawn.
  - right. apply spawn_expect_neutral.
Qed.

(** C5. [connect] on a driver that has a process spawns nothing and waits
    for nothing: it returns at once, with the trace and the world as they
    were, and only [self.env] assigned again. So in every test script that
    starts with no process, a driver has spawned exactly one process when it
    has a process handle and none otherwise: never two. *)
Theorem connect_idempotent :
  (forall self room server st h,
      _process (clients st self) = Some h ->
      connect self room server st = (Ok tt, with_env self st)) /\
  (forall fuel cs st0,
      (forall r, _process (clients st0 r) = None) ->
      forall r,
        let st := run_calls fuel cs st0 in
        count_spawn r (trace st) = (count_spawn r (trace st0) + processes (clients st r))%nat /\
        (count_spawn r (trace st) <= count_spawn r (trace st0) + 1)%nat).
Proof.
  split.
  - intros self room server st h H. rewrite connect_unfold. now rewrite H.
  - intros fuel cs st0 H0 r st.
    destruct (spawn_accounted fuel cs st0) as [evs [T C]].
    fold st in T, C. specialize (C r). rewrite spawn_fold in C.
    assert (Z0 : processes (clients st0 r) = 0%nat).
    { unfold processes, has_process. now rewrite H0. }
    rewrite Z0 in C. rewrite T, count_spawn_app.
    assert (B : (processes (clients st r) <= 1)%nat).
    { unfold processes. destruct (has_process (clients st r)); simpl; lia. }
    split; lia.
Qed.

(** *** The selected conversation *)

Lemma conv_step_expect pattern :
  pattern <> select_pattern -> expect_neutral conv_step pattern.
Proof.
  intros N r self m x. unfold conv_step, selected_of_event.
  destruct m; [|reflexivity].
  apply String.eqb_neq in N. now rewrite N, andb_false_r.
Qed.

Lemma select_tracks_conv self id :
  tracked conversation_id conv_step (select_conversation self id).
Proof.
  rewrite select_conversation_unfold.
  apply tracked_bind; [now apply tracked_send_message | intros _].
  intros st. rewrite select_tail_unfold.
  destruct (_process (clients st self)) as [h|] eqn:Hp; [|exists []; apply tracks_refl].
  destruct (p_expect h select_pattern (-1) (os st)) as [[i| |] w];
    try (exists []; split; simpl; [now rewrite app_nil_r | reflexivity]).
  exists [EvExpect self select_pattern (p_match h w)].
  cbv zeta. split.
  - destruct (p_match h w) as [gs|]; [|reflexivity].
    destruct (nth_error gs 1) as [g|]; [|reflexivity].
    destruct (int_of_str g); reflexivity.
  - intros r. cbn [fold_left]. unfold conv_step, selected_of_event.
    rewrite String.eqb_refl, andb_true_r.
    destruct (p_match h w) as [gs|]; [|reflexivity].
    destruct (nth_error gs 1) as [g|]; [|now destruct (Nat.eqb self r)].
    destruct (int_of_str g) as [z|]; [|now destruct (Nat.eqb self r)].
    simpl. unfold upd. rewrite (Nat.eqb_sym self r).
    now destruct (Nat.eqb r self).
Qed.

Lemma connect_tracks_conv self room server :
  tracked conversation_id conv_step (connect self room server).
Proof.
  apply tracked_connect_generic; try reflexivity.
  apply conv_step_expect.
Qed.

Lemma conv_accounted fuel cs st :
  (forall c, In c cs -> raw_select c = false) ->
  exists evs, tracks conversation_id conv_step st (run_calls fuel cs st) evs.
Proof.
  intros H. apply tracked_run_calls; try reflexivity.
  - apply conv_step_expect.
  - apply select_tracks_conv.
  - apply connect_tracks_conv.
  - now left.
Qed.

(** C10. The selected conversation of a driver is None when the driver is
    made, and from then on whatever the most recent selection confirmation
    in its trace gives: in every test script (that leaves the waiting for
    that confirmation to [select_conversation]) each driver's
    [conversation_id] is the integer of the last such confirmation, or None
    when there was none. [join_conversation] and
    [invite_and_join_conversation] change it in step with these
    confirmations only, and [connect], [create_conversation],
    [invite_conversation], [read_message] and [stop] leave it as it is in
    every driver. *)
Theorem conversation_id_invariant :
  (forall user password port_ np1sec ld proxy_,
      conversation_id (init user password port_ np1sec ld proxy_) = None) /\
  (forall fuel cs st0,
      (forall r, conversation_id (clients st0 r) = None) ->
      trace st0 = [] ->
      (forall c, In c cs -> raw_select c = false) ->
      forall r,
        conversation_id (clients (run_calls fuel cs st0) r)
        = last_selecting r (trace (run_calls fuel cs st0))) /\
  (forall self id, tracked conversation_id conv_step (select_conversation self id)) /\
  (forall self id, tracked conversation_id conv_step (join_conversation self id)) /\
  (forall self client,
      tracked conversation_id conv_step (invite_and_join_conversation self client)) /\
  (forall self room server, keeps (same conversation_id) (connect self room server)) /\
  (forall self, keeps (same conversation_id) (create_conversation self)) /\
  (forall self u, keeps (same conversation_id) (invite_conversation self u)) /\
  (forall fuel self timeout, keeps (same conversation_id) (read_message fuel self timeout)) /\
  (forall self, keeps (same conversation_id) (stop self)).
Proof.
  repeat split.
  - intros fuel cs st0 H0 T0 Hcs r.
    destruct (conv_accounted fuel cs st0 Hcs) as [evs [T C]].
    rewrite C, T, T0, H0. reflexivity.
  - apply select_tracks_conv.
  - intros self id. apply tracked_join_conversation; try reflexivity.
    + apply conv_step_expect.
    + apply select_tracks_conv.
  - intros self client. apply tracked_invite_and_join_conversation; try reflexivity.
    + apply conv_step_expect.
    + apply select_tracks_conv.
  - intros self room server. now apply keeps_connect.
  - intros self. apply keeps_create_conversation.
  - intros self u. apply keeps_invite_conversation.
  - intros fuel self timeout. now apply keeps_read_message.
  - intros self. apply keeps_stop.
Qed.

(** ** Failures *)


(** ** Selecting a conversation *)

(** C6 (as amended). When select_conversation(id) returns, it has sent the
    line [/select id], then matched the selection pattern, which accepts any
    integer; it has stored the integer of group 1 of that match as the
    driver's conversation and returns it. That integer is the requested id
    whenever the confirmation carries the requested id. *)
Theorem select_conversation_result self id st z st' :
  select_conversation self id st = (Ok z, st') ->
  exists gs g,
    trace st' = (trace st ++ [EvSend self ("/select " ++ format_id id);
                              EvExpect self select_pattern (Some gs)])%list /\
    nth_error gs 1 = Some g /\
    int_of_str g = Some z /\
    conversation_id (clients st' self) = Some z /\
    (forall r, r <> self -> clients st' r = clients st r) /\
    (g = format_id id -> id = Some z).
Proof.
  rewrite select_conversation_unfold. intros H.
  apply bind_inv_ok in H as (n & st1 & H1 & H2).
  rewrite send_message_unfold in H1.
  destruct (_process (clients st self)) as [h|] eqn:Hp; [|discriminate H1].
  destruct (p_sendline h ("/select " ++ format_id id) (os st)) as [[n'| |] w];
    try discriminate H1.
  injection H1 as -> <-.
  rewrite select_tail_unfold in H2. cbn [with_event with_os clients os] in H2.
  rewrite Hp in H2.
  destruct (p_expect h select_pattern (-1) w) as [[i| |] w2]; try discriminate H2.
  cbv zeta in H2.
  destruct (p_match h w2) as [gs|]; [|discriminate H2].
  destruct (nth_error gs 1) as [g|] eqn:G; [|discriminate H2].
  destruct (int_of_str g) as [z'|] eqn:I; [|discriminate H2].
  injection H2 as -> <-.
  exists gs, g. repeat split; try assumption.
  - simpl. now rewrite <- app_assoc.
  - simpl. now rewrite upd_same.
  - intros r Hr. simpl. now rewrite upd_other.
  - intros ->. destruct id as [z0|]; simpl in I.
    + rewrite int_of_str_of_int in I. congruence.
    + discriminate I.
Qed.

(** ** The order of the handshake *)

Lemma prefix_nil {A} (s : list A) : prefix [] s.
Proof. now exists s. Qed.

Lemma prefix_refl {A} (s : list A) : prefix s s.
Proof. exists []. now rewrite app_nil_r. Qed.

Lemma prefix_app_r {A} (xs s1 s2 : list A) : prefix xs s1 -> prefix xs (s1 ++ s2).
Proof. intros [rest ->]. exists (rest ++ s2)%list. now rewrite app_assoc. Qed.

Lemma prefix_app_l {A} (s1 xs s2 : list A) : prefix xs s2 -> prefix (s1 ++ xs) (s1 ++ s2).
Proof. intros [rest ->]. exists rest. now rewrite app_assoc. Qed.

Lemma follows_bind {A B} (m : M A) (k : A -> M B) st s1 s2 :
  follows m st s1 ->
  (forall a st1, m st = (Ok a, st1) -> follows (k a) st1 s2) ->
  follows (bind m k) st (s1 ++ s2).
Proof.
  intros (e1 & T1 & P1 & F1) Hk. unfold follows, bind.
  destruct (m st) as [[a| |] st1] eqn:E; cbn [fst snd] in *.
  - destruct (Hk a st1 eq_refl) as (e2 & T2 & P2 & F2).
    exists (e1 ++ e2)%list. rewrite map_app, (F1 eq_refl).
    split; [now rewrite T2, T1, app_assoc|].
    split; [now apply prefix_app_l|].
    intros Hok. now rewrite (F2 Hok).
  - exists e1. split; [exact T1|]. split; [now apply prefix_app_r | discriminate].
  - exists e1. split; [exact T1|]. split; [now apply prefix_app_r | discriminate].
Qed.

Lemma follows_silent {A} (m : M A) st :
  trace (snd (m st)) = trace st -> follows m st [].
Proof.
  intros T. exists []. rewrite app_nil_r. repeat split; auto. apply prefix_nil.
Qed.

Lemma follows_send_message self message st :
  follows (send_message self message) st [EvSend self message].
Proof.
  unfold follows. rewrite send_message_unfold.
  destruct (_process (clients st self)) as [h|].
  - destruct (p_sendline h message (os st)) as [[n| |] w]; cbn [fst snd].
    + exists [EvSend self message]. repeat split. apply prefix_refl.
    + exists []. simpl. rewrite app_nil_r. repeat split; [apply prefix_nil | discriminate].
    + exists []. simpl. rewrite app_nil_r. repeat split; [apply prefix_nil | discriminate].
  - exists []. simpl. rewrite app_nil_r. repeat split; [apply prefix_nil | discriminate].
Qed.

Lemma follows_expect self pattern timeout st :
  follows (expect self pattern timeout) st [EvExpect self pattern None].
Proof.
  unfold follows. rewrite expect_unfold.
  destruct (_process (clients st self)) as [h|].
  - destruct (p_expect h pattern timeout (os st)) as [[n| |] w]; cbn [fst snd].
    + exists [EvExpect self pattern (p_match h w)]. repeat split. apply prefix_refl.
    + exists []. simpl. rewrite app_nil_r. repeat split; [apply prefix_nil | discriminate].
    + exists []. simpl. rewrite app_nil_r. repeat split; [apply prefix_nil | discriminate].
  - exists []. simpl. rewrite app_nil_r. repeat split; [apply prefix_nil | discriminate].
Qed.

Lemma follows_select_tail self st :
  follows (select_tail self) st [EvExpect self select_pattern None].
Proof.
  unfold follows. rewrite select_tail_unfold.
  destruct (_process (clients st self)) as [h|];
    [|exists []; simpl; rewrite app_nil_r; repeat split; [apply prefix_nil | discriminate]].
  destruct (p_expect h select_pattern (-1) (os st)) as [[n| |] w]; cbn [fst snd];
    try (exists []; simpl; rewrite app_nil_r; repeat split; [apply prefix_nil | discriminate]).
  cbv zeta. exists [EvExpect self select_pattern (p_match h w)].
  destruct (p_match h w) as [gs|]; [|repeat split; apply prefix_refl].
  destruct (nth_error gs 1) as [g|]; [|repeat split; apply prefix_refl].
  destruct (int_of_str g); repeat split; apply prefix_refl.
Qed.

Lemma follows_select_conversation self id st :
  follows (select_conversation self id) st
    [EvSend self ("/select " ++ format_id id); EvExpect self select_pattern None].
Proof.
  rewrite select_conversation_unfold.
  apply (follows_bind _ _ st [_] [_]); [apply follows_send_message|].
  intros _ st1 _. apply follows_select_tail.
Qed.

Lemma follows_invite_conversation self u st :
  follows (invite_conversation self u) st
    [EvSend self ("/invite " ++ u);
     EvExpect self ("\*\* <(\d)> " ++ username (clients st self) ++ " invited user " ++ u) None].
Proof.
  unfold invite_conversation.
  apply (follows_bind _ _ st [_] [_]); [apply follows_send_message|].
  intros n st1 E.
  pose proof (keeps_send_message (fun c => c) self ("/invite " ++ u) st) as K.
  rewrite E in K. cbn [snd] in K.
  apply (follows_bind _ _ st1 [] [_]); [now apply follows_silent|].
  intros c st2 [= <- <-]. rewrite (K self).
  change [EvExpect self ("\*\* <(\d)> " ++ username (clients st self) ++ " invited user " ++ u) None]
    with ([EvExpect self ("\*\* <(\d)> " ++ username (clients st self) ++ " invited user " ++ u) None]
            ++ [])%list.
  apply follows_bind; [apply follows_expect|].
  intros. now apply follows_silent.
Qed.

Lemma follows_join_conversation self id st :
  follows (join_conversation self id) st
    [EvExpect self ("\*\* Invited to conversation " ++ format_id id) None;
     EvSend self ("/select " ++ format_id id);
     EvExpect self select_pattern None;
     EvSend self "/join";
     EvExpect self "you joined the chat session" None].
Proof.
  unfold join_conversation.
  apply (follows_bind _ _ st [_] [_; _; _; _]); [apply follows_expect|].
  intros _ st1 _.
  apply (follows_bind _ _ st1 [_; _] [_; _]); [apply follows_select_conversation|].
  intros _ st2 _.
  apply (follows_bind _ _ st2 [_] [_]); [apply follows_send_message|].
  intros _ st3 _.
  change [EvExpect self "you joined the chat session" None]
    with ([EvExpect self "you joined the chat session" None] ++ [])%list.
  apply follows_bind; [apply follows_expect|].
  intros. now apply follows_silent.
Qed.

(** C3. invite_and_join_conversation takes its steps in one order: the
    inviter sends the invitation of the invitee's user name and waits for
    its own invite confirmation; then the invitee waits for the invitation,
    selects the conversation, sends the join command and waits for its join
    confirmation; and only then the inviter waits for the line saying that
    the invitee joined. Whatever the children do, the steps taken are a
    prefix of this list, and the call returns only when all of them have
    been taken, each wait having matched. *)
Theorem invite_and_join_order self client st :
  follows (invite_and_join_conversation self client) st
    (handshake self client
       (username (clients st self)) (username (clients st client))
       (conversation_id (clients st self))).
Proof.
  unfold invite_and_join_conversation, handshake.
  apply (follows_bind _ _ st [] [_; _; _; _; _; _; _; _]); [now apply follows_silent|].
  intros c st0 [= <- <-].
  apply (follows_bind _ _ st [_; _] [_; _; _; _; _; _]); [apply follows_invite_conversation|].
  intros [] st1 E1.
  pose proof (keeps_invite_conversation (fun c => c) self (username (clients st client)) st) as K1.
  rewrite E1 in K1. cbn [snd] in K1.
  apply (follows_bind _ _ st1 [] [_; _; _; _; _; _]); [now apply follows_silent|].
  intros s st1' [= <- <-]. rewrite (K1 self).
  apply (follows_bind _ _ st1 [_; _; _; _; _] [_]); [apply follows_join_conversation|].
  intros [] st2 E2.
  pose proof (keeps_join_conversation username (fun _ _ => eq_refl) client
                (conversation_id (clients st self)) st1) as K2.
  rewrite E2 in K2. cbn [snd] in K2.
  apply (follows_bind _ _ st2 [] [_]); [now apply follows_silent|].
  intros c' st2' [= <- <-]. rewrite (K2 client), (K1 client).
  change [EvExpect self (username (clients st client) ++ " joined the chat session") None]
    with ([EvExpect self (username (clients st client) ++ " joined the chat session") None]
            ++ [])%list.
  apply follows_bind; [apply follows_expect|].
  intros. now apply follows_silent.
Qed.

(** ** Stopping *)

Section Stop.

(** The contract of [terminate(force=True)]: it kills a live child, and
    returns at once when the child is dead already. *)
Hypothesis terminate_kills :
  forall h w, p_isalive h w = true ->
    exists w', p_terminate h true w = (Ok true, w') /\ p_isalive h w' = false.
Hypothesis terminate_dead :
  forall h w, p_isalive h w = false -> p_terminate h true w = (Ok true, w).

(** C8. stop() on a driver whose child is live terminates it by force and
    leaves it dead; stop() on a driver with no process, or whose child is
    dead, changes nothing; and a second stop() changes nothing. *)
Theorem stop_terminates self st :
  (forall h,
      _process (clients st self) = Some h -> p_isalive h (os st) = true ->
      exists w',
        p_terminate h true (os st) = (Ok true, w') /\
        stop self st = (Ok tt, with_os w' st) /\
        p_isalive h w' = false) /\
  (_process (clients st self) = None \/
   (exists h, _process (clients st self) = Some h /\ p_isalive h (os st) = false) ->
   stop self st = (Ok tt, st)) /\
  stop self (snd (stop self st)) = (Ok tt, snd (stop self st)).
Proof.
  assert (Dead : forall st0,
             _process (clients st0 self) = None \/
             (exists h, _process (clients st0 self) = Some h /\ p_isalive h (os st0) = false) ->
             stop self st0 = (Ok tt, st0)).
  { intros st0 [H | (h & H & D)]; unfold stop, bind, get_client; rewrite H.
    - reflexivity.
    - unfold lift_os. rewrite (terminate_dead _ _ D). now rewrite state_eta. }
  assert (Live : forall h,
             _process (clients st self) = Some h -> p_isalive h (os st) = true ->
             exists w',
               p_terminate h true (os st) = (Ok true, w') /\
               stop self st = (Ok tt, with_os w' st) /\
               p_isalive h w' = false).
  { intros h H L. destruct (terminate_kills _ _ L) as (w' & T & D).
    exists w'. split; [exact T|]. split; [|exact D].
    unfold stop, bind, get_client. rewrite H. unfold lift_os. now rewrite T. }
  split; [exact Live|]. split; [apply Dead|].
  destruct (_process (clients st self)) as [h|] eqn:H.
  - destruct (p_isalive h (os st)) eqn:L.
    + destruct (Live h eq_refl L) as (w' & _ & S & D). rewrite S. cbn [snd].
      apply Dead. right. exists h. now split.
    + rewrite (Dead st); [|right; exists h; now split]. cbn [snd].
      apply Dead. right. exists h. now split.
  - rewrite (Dead st) by now left. cbn [snd]. apply Dead. now left.
Qed.

End Stop.

(** ** The line reader *)

Lemma read_line_loop_step fuel self end_ line st :
  read_line_loop (S fuel) self end_ line st =
    match _process (clients st self) with
    | None => (Raise (AttributeError "read_nonblocking"), st)
    | Some h =>
        let budget := Z.max 0 (end_ - time_time (os st)) in
        let st1 := with_event (EvRead self (time_time (os st)) budget) st in
        match p_read_nonblocking h 1 budget (os st) with
        | (Ok b, w) =>
            if String.eqb b NL then (Ok line, with_os w st1)
            else read_line_loop fuel self end_ (line ++ b) (with_os w st1)
        | (Raise e, w) => (Raise e, with_os w st1)
        | (OutOfFuel, w) => (OutOfFuel, with_os w st1)
        end
    end.
Proof.
  cbn [read_line_loop].
  unfold process_attr, bind, get_client, get_os, log, lift_os, ret, raise.
  destruct (_process (clients st self)) as [h|]; [|reflexivity].
  cbn [os clients trace with_event with_os].
  destruct (p_read_nonblocking h 1 (Z.max 0 (end_ - time_time (os st))) (os st))
    as [[b| |] w]; try reflexivity.
  destruct (String.eqb b NL); reflexivity.
Qed.

Lemma read_line_unfold fuel self timeout st :
  read_line fuel self timeout st =
    read_line_loop fuel self (time_time (os st) + timeout) "" st.
Proof. reflexivity. Qed.

(** Every byte read of [read_line] is given what is left until the deadline. *)
Lemma read_line_loop_budgets fuel self end_ line st :
  exists evs,
    trace (snd (read_line_loop fuel self end_ line st)) = (trace st ++ evs)%list /\
    Forall (fun e => exists now, e = EvRead self now (Z.max 0 (end_ - now))) evs.
Proof.
  revert line st. induction fuel as [|fuel IH]; intros line st.
  - exists []. simpl. now rewrite app_nil_r.
  - rewrite read_line_loop_step.
    destruct (_process (clients st self)) as [h|];
      [|exists []; simpl; now rewrite app_nil_r].
    cbv zeta.
    set (e := EvRead self (time_time (os st)) (Z.max 0 (end_ - time_time (os st)))).
    assert (He : exists now, e = EvRead self now (Z.max 0 (end_ - now)))
      by now exists (time_time (os st)).
    destruct (p_read_nonblocking h 1 (Z.max 0 (end_ - time_time (os st))) (os st))
      as [[b| |] w]; try (exists [e]; split; [reflexivity | now constructor]).
    destruct (String.eqb b NL); [exists [e]; split; [reflexivity | now constructor]|].
    destruct (IH (line ++ b) (with_os w (with_event e st))) as (evs & T & F).
    exists (e :: evs). split; [|now constructor].
    rewrite T. simpl. now rewrite <- app_assoc.
Qed.

Section Budget.

(** The contract of [read_nonblocking(size, timeout)]: it returns or raises
    within its timeout, and the clock does not run backwards. *)
Hypothesis read_within_budget :
  forall h size budget w,
    time_time w <= time_time (snd (p_read_nonblocking h size budget w))
    <= time_time w + Z.max 0 budget.

Lemma read_line_loop_elapsed fuel self end_ line st :
  time_time (os st) <= time_time (os (snd (read_line_loop fuel self end_ line st)))
  <= Z.max (time_time (os st)) end_.
Proof.
  revert line st. induction fuel as [|fuel IH]; intros line st.
  - simpl. lia.
  - rewrite read_line_loop_step.
    destruct (_process (clients st self)) as [h|]; [|simpl; lia].
    cbv zeta.
    pose proof (read_within_budget h 1 (Z.max 0 (end_ - time_time (os st))) (os st)) as B.
    destruct (p_read_nonblocking h 1 (Z.max 0 (end_ - time_time (os st))) (os st))
      as [[b| |] w]; cbn [snd] in B; try (simpl; lia).
    destruct (String.eqb b NL); [simpl; lia|].
    specialize (IH (line ++ b)
                   (with_os w (with_event
                      (EvRead self (time_time (os st))
                         (Z.max 0 (end_ - time_time (os st)))) st))).
    cbn [os with_os] in IH. lia.
Qed.

Lemma read_line_elapsed fuel self timeout st :
  time_time (os st) <= time_time (os (snd (read_line fuel self timeout st)))
  <= time_time (os st) + Z.max 0 timeout.
Proof.
  rewrite read_line_unfold.
  pose proof (read_line_loop_elapsed fuel self (time_time (os st) + timeout) "" st).
  lia.
Qed.

End Budget.

(** When a read may take up to [cost] more than the timeout it is given,
    the loop runs past its deadline by [cost] for every read it makes, and
    no more. *)
Lemma read_line_loop_overrun fuel self end_ line st :
  exists evs,
    trace (snd (read_line_loop fuel self end_ line st)) = (trace st ++ evs)%list /\
    Forall (fun e => exists now, e = EvRead self now (Z.max 0 (end_ - now))) evs /\
    forall cost,
      (forall h size budget w,
          time_time w <= time_time (snd (p_read_nonblocking h size budget w))
          <= time_time w + Z.max 0 budget + cost) ->
      time_time (os st) <= time_time (os (snd (read_line_loop fuel self end_ line st)))
      <= Z.max (time_time (os st)) end_ + cost * Z.of_nat (List.length evs).
Proof.
  revert line st. induction fuel as [|fuel IH]; intros line st.
  - exists []. simpl. rewrite app_nil_r. repeat split; [constructor | lia | lia].
  - rewrite read_line_loop_step.
    destruct (_process (clients st self)) as [h|];
      [|exists []; simpl; rewrite app_nil_r; repeat split; [constructor | lia | lia]].
    cbv zeta.
    set (e := EvRead self (time_time (os st)) (Z.max 0 (end_ - time_time (os st)))).
    assert (He : exists now, e = EvRead self now (Z.max 0 (end_ - now)))
      by now exists (time_time (os st)).
    assert (One : forall (r : res string) w,
               p_read_nonblocking h 1 (Z.max 0 (end_ - time_time (os st))) (os st) = (r, w) ->
               exists evs,
                 trace (with_os w (with_event e st)) = (trace st ++ evs)%list /\
                 Forall (fun e => exists now, e = EvRead self now (Z.max 0 (end_ - now))) evs /\
                 forall cost,
                   (forall h size budget w,
                       time_time w <= time_time (snd (p_read_nonblocking h size budget w))
                       <= time_time w + Z.max 0 budget + cost) ->
                   time_time (os st) <= time_time (os (with_os w (with_event e st)))
                   <= Z.max (time_time (os st)) end_ + cost * Z.of_nat (List.length evs)).
    { intros r w R. exists [e]. split; [reflexivity|]. split; [now constructor|].
      intros cost C.
      specialize (C h 1 (Z.max 0 (end_ - time_time (os st))) (os st)).
      rewrite R in C. cbn [snd] in C. cbn [os with_os List.length]. lia. }
    destruct (p_read_nonblocking h 1 (Z.max 0 (end_ - time_time (os st))) (os st))
      as [[b| |] w] eqn:R; try (cbn [snd]; exact (One _ w eq_refl)).
    destruct (String.eqb b NL); [cbn [snd]; exact (One _ w eq_refl)|].
    destruct (IH (line ++ b) (with_os w (with_event e st))) as (evs & T & F & B).
    exists (e :: evs). split; [|split; [now constructor|]].
    + rewrite T. simpl. now rewrite <- app_assoc.
    + intros cost C. specialize (B cost C).
      pose proof (C h 1 0 (os st)) as C0.
      specialize (C h 1 (Z.max 0 (end_ - time_time (os st))) (os st)).
      rewrite R in C. cbn [snd] in C. cbn [os with_os] in B.
      cbn [List.length]. rewrite Nat2Z.inj_succ, Z.mul_succ_r.
      assert (0 <= cost * Z.of_nat (List.length evs)) by nia.
      lia.
Qed.

(** ** The event demultiplexer *)

(** C1 (as amended). For every line that [read_event] reads: when the line
    matches the message pattern, the line itself, as read, is put at the
    back of the driver's queue, and it is its three groups between the fixed
    delimiters (up to the one final newline that the pattern tolerates);
    when it does not match, nothing is queued. No event object is built. *)
Theorem read_event_enqueues_line fuel self timeout st line st1 :
  read_line fuel self timeout st = (Ok line, st1) ->
  (forall gs,
      Re.re_match r_message line = Some gs ->
      read_event fuel self timeout st
        = (Ok tt, with_messages self (messages (clients st self) ++ [line]) st1) /\
      exists g1 g2 g3,
        gs = [g1; g2; g3] /\
        (line = message_line g1 g2 g3 \/ line = message_line g1 g2 g3 ++ NL)) /\
  (Re.re_match r_message line = None ->
   read_event fuel self timeout st = (Ok tt, st1)).
Proof.
  intros L.
  pose proof (keeps_read_line (fun c => c) fuel self timeout st) as K.
  rewrite L in K. cbn [snd] in K.
  rewrite (read_event_after_line _ _ _ _ _ _ L). split.
  - intros gs G. rewrite G, (K self). split; [reflexivity|].
    now apply ReFacts.re_match_message.
  - now intros ->.
Qed.

(** ** The attributes set at construction *)

Lemma before_at_prefix s : exists rest, s = before_at s ++ rest.
Proof.
  induction s as [|c s [rest IH]]; simpl.
  - now exists "".
  - destruct (Ascii.eqb c "@"); simpl.
    + now exists (String c s).
    + exists rest. now rewrite <- IH.
Qed.

Lemma before_at_no_at s : ~ has_at (before_at s).
Proof.
  unfold has_at. induction s as [|c s IH]; simpl; [tauto|].
  destruct (Ascii.eqb c "@") eqn:E; simpl; [tauto|].
  intros [H | H]; [|now apply IH].
  subst c. discriminate E.
Qed.

Lemma before_at_app local rest :
  ~ has_at local -> before_at (local ++ String "@" rest) = local.
Proof.
  unfold has_at. induction local as [|c s IH]; simpl; intros H; [reflexivity|].
  destruct (Ascii.eqb_spec c "@") as [-> | N]; [exfalso; apply H; now left|].
  rewrite IH; [reflexivity|]. intros I. apply H. now right.
Qed.

Lemma before_at_whole s : ~ has_at s -> before_at s = s.
Proof.
  unfold has_at. induction s as [|c s IH]; simpl; intros H; [reflexivity|].
  destruct (Ascii.eqb_spec c "@") as [-> | N]; [exfalso; apply H; now left|].
  rewrite IH; [reflexivity|]. intros I. apply H. now right.
Qed.

(** X1. The user name that [__init__] derives from the account is the part
    of it before the first at sign: it holds no at sign and is a prefix of
    the account; for an account [local@domain] whose [local] holds no at
    sign it is [local], whatever the domain, and for an account without at
    sign it is the whole account. *)
Theorem init_username user password port_ np1sec ld proxy_ :
  let c := init user password port_ np1sec ld proxy_ in
  ~ has_at (username c) /\
  (exists rest, xmpp_user c = username c ++ rest) /\
  (forall local domain,
      user = local ++ String "@" domain -> ~ has_at local -> username c = local) /\
  (~ has_at user -> username c = user).
Proof.
  simpl. repeat split.
  - apply before_at_no_at.
  - apply before_at_prefix.
  - intros local domain -> H. now apply before_at_app.
  - apply before_at_whole.
Qed.

(** ** Attributes that no call changes *)

Lemma same_run_call {X} (f : Client -> X) fuel c st :
  (forall ms c, f (set_messages ms c) = f c) ->
  (forall v c, f (set_conversation_id v c) = f c) ->
  (forall e c, f (set_env e c) = f c) ->
  (forall h c, f (set_process h c) = f c) ->
  same f st (run_call fuel c st).
Proof.
  intros Hm Hc He Hp. destruct c; simpl.
  - apply keeps_set_debug.
  - apply keeps_send_message.
  - apply keeps_expect.
  - apply keeps_read_line.
  - now apply keeps_read_event.
  - now apply keeps_read_message.
  - now apply keeps_connect.
  - apply keeps_create_conversation.
  - now apply keeps_select_conversation.
  - apply keeps_invite_conversation.
  - now apply keeps_join_conversation.
  - now apply keeps_invite_and_join_conversation.
  - apply keeps_stop.
Qed.

Lemma same_run_calls {X} (f : Client -> X) fuel cs st :
  (forall ms c, f (set_messages ms c) = f c) ->
  (forall v c, f (set_conversation_id v c) = f c) ->
  (forall e c, f (set_env e c) = f c) ->
  (forall h c, f (set_process h c) = f c) ->
  same f st (run_calls fuel cs st).
Proof.
  intros Hm Hc He Hp. revert st. induction cs as [|c cs IH]; intros st; simpl.
  - apply same_refl.
  - eapply same_trans; [now apply (same_run_call f fuel c st) | apply IH].
Qed.

(** X2. Whatever calls a test makes, in whatever order and with whatever
    outcome, the attributes that [__init__] sets from its arguments stay as
    they were in every driver: the account, the password, the user name, the
    port, the proxy, the paths; and so does [debug], which [set_debug] never
    assigns. *)
Theorem attributes_never_change fuel cs st r :
  let c := clients st r in
  let c' := clients (run_calls fuel cs st) r in
  xmpp_user c' = xmpp_user c /\
  xmpp_password c' = xmpp_password c /\
  username c' = username c /\
  port c' = port c /\
  proxy c' = proxy c /\
  debug c' = debug c /\
  np1sec_path c' = np1sec_path c /\
  ld_library_path c' = ld_library_path c /\
  jabberite_bin c' = jabberite_bin c.
Proof.
  cbv zeta.
  repeat split;
    match goal with
    | |- ?f (clients _ r) = _ => apply (same_run_calls f fuel cs st); reflexivity
    end.
Qed.

(** ** Calls on a driver that has not connected *)

(** X11. On a driver without a process, the conversation calls and the
    queue readers fail on their first step and change nothing at all:
    [create_conversation], [select_conversation], [invite_conversation] and
    [invite_and_join_conversation] (for the inviter) when they send,
    [join_conversation] when it waits, [read_event] and, on an empty queue,
    [read_message] when they read. *)
Theorem unconnected_calls_raise self st :
  _process (clients st self) = None ->
  create_conversation self st = (Raise (AttributeError "sendline"), st) /\
  (forall id, select_conversation self id st = (Raise (AttributeError "sendline"), st)) /\
  (forall u, invite_conversation self u st = (Raise (AttributeError "sendline"), st)) /\
  (forall client,
      invite_and_join_conversation self client st
      = (Raise (AttributeError "sendline"), st)) /\
  (forall id, join_conversation self id st = (Raise (AttributeError "expect"), st)) /\
  (forall fuel timeout,
      read_event (S fuel) self timeout st
      = (Raise (AttributeError "read_nonblocking"), st)) /\
  (forall fuel timeout,
      messages (clients st self) = [] ->
      read_message (S fuel) self timeout st
      = (Raise (AttributeError "read_nonblocking"), st)).
Proof.
  intros H.
  assert (S1 : forall m, send_message self m st = (Raise (AttributeError "sendline"), st)).
  { intros m. rewrite send_message_unfold. now rewrite H. }
  assert (E1 : forall p t, expect self p t st = (Raise (AttributeError "expect"), st)).
  { intros p t. rewrite expect_unfold. now rewrite H. }
  assert (R1 : forall fuel timeout,
             read_event (S fuel) self timeout st
             = (Raise (AttributeError "read_nonblocking"), st)).
  { intros fuel timeout. unfold read_event.
    apply bind_raise. rewrite read_line_unfold, read_line_loop_step. now rewrite H. }
  repeat split.
  - unfold create_conversation. now apply bind_raise.
  - intros id. rewrite select_conversation_unfold. now apply bind_raise.
  - intros u. unfold invite_conversation. now apply bind_raise.
  - intros client. unfold invite_and_join_conversation.
    unfold bind at 1. unfold get_client at 1.
    apply bind_raise. unfold invite_conversation. now apply bind_raise.
  - intros id. unfold join_conversation. now apply bind_raise.
  - exact R1.
  - intros fuel timeout Q. unfold read_message, bind at 1. unfold get_os at 1.
    rewrite (read_message_loop_empty _ _ _ _ _ Q). now apply bind_raise.
Qed.

(** ** Creating and inviting *)

(** X3. When [create_conversation] returns, it has sent [/create], then
    matched the creation pattern, and returns the integer of group 1 of that
    match; it has changed no driver object: in particular it selects
    nothing. *)
Theorem create_conversation_result self st z st' :
  create_conversation self st = (Ok z, st') ->
  exists gs g,
    trace st' = (trace st ++ [EvSend self "/create";
                              EvExpect self created_pattern (Some gs)])%list /\
    nth_error gs 1 = Some g /\
    int_of_str g = Some z /\
    forall r, clients st' r = clients st r.
Proof.
  unfold create_conversation. intros H.
  apply bind_inv_ok in H as (n & st1 & H1 & H2).
  rewrite send_message_unfold in H1.
  destruct (_process (clients st self)) as [h|] eqn:Hp; [|discriminate H1].
  destruct (p_sendline h "/create" (os st)) as [[n'| |] w]; try discriminate H1.
  injection H1 as -> <-.
  apply bind_inv_ok in H2 as (i & st2 & H2 & H3).
  rewrite expect_unfold in H2. cbn [with_event with_os clients os] in H2.
  rewrite Hp in H2.
  destruct (p_expect h "\*\* Created conversation (\d+):" (-1) w) as [[i'| |] w2];
    try discriminate H2.
  injection H2 as -> <-.
  apply bind_inv_ok in H3 as (g & st3 & H3 & H4).
  rewrite match_group_unfold in H3. cbn [with_event with_os clients os] in H3.
  rewrite Hp in H3.
  destruct (p_match h w2) as [gs|]; [|discriminate H3].
  destruct (nth_error gs 1) as [g'|] eqn:G; [|discriminate H3].
  injection H3 as -> <-.
  unfold py_int in H4. destruct (int_of_str g) as [z'|] eqn:I; [|discriminate H4].
  injection H4 as -> <-.
  exists gs, g. repeat split; try assumption.
  simpl. now rewrite <- app_assoc.
Qed.

(** X12. When [invite_conversation] returns, it has sent the invitation of
    the user name it was given and then matched the confirmation that
    names the driver's own user name as the inviter; it has changed no
    driver object. *)
Theorem invite_conversation_result self u st st' :
  invite_conversation self u st = (Ok tt, st') ->
  exists m,
    trace st' = (trace st ++
                 [EvSend self ("/invite " ++ u);
                  EvExpect self ("\*\* <(\d)> " ++ username (clients st self)
                                   ++ " invited user " ++ u) m])%list /\
    forall r, clients st' r = clients st r.
Proof.
  unfold invite_conversation. intros H.
  apply bind_inv_ok in H as (n & st1 & H1 & H2).
  rewrite send_message_unfold in H1.
  destruct (_process (clients st self)) as [h|] eqn:Hp; [|discriminate H1].
  destruct (p_sendline h ("/invite " ++ u) (os st)) as [[n'| |] w]; try discriminate H1.
  injection H1 as -> <-.
  unfold bind at 1 in H2. unfold get_client at 1 in H2.
  apply bind_inv_ok in H2 as (i & st2 & H2 & H3).
  rewrite expect_unfold in H2. cbn [with_event with_os clients os] in H2.
  rewrite Hp in H2.
  match type of H2 with
  | context [p_expect h ?p (-1) w] => destruct (p_expect h p (-1) w) as [[i'| |] w2]
  end; try discriminate H2.
  injection H2 as -> <-. injection H3 as <-.
  eexists. split; [|reflexivity].
  simpl. now rewrite <- app_assoc.
Qed.

(** ** Connecting, again *)

(** X4. [connect] on a driver without a process, when it returns: it has
    spawned one child, with the command, the argument list and the
    environment built from the driver's attributes, and then matched the
    connected line; the driver now holds the handle of that child, and the
    other drivers are as they were. Under the debugger flag the command is
    gdb and the arguments are the plain command and its arguments behind
    the four gdb arguments, unaltered. *)
Theorem connect_spawns self room server st st' :
  _process (clients st self) = None ->
  connect self room server st = (Ok tt, st') ->
  let c := clients st self in
  let cmd := connect_command (run_with_gdb (os st)) c room server in
  (exists h w m,
      p_spawn (fst cmd) (snd cmd) (connect_env c) 3600 (os st) = (Ok h, w) /\
      trace st' = (trace st ++ [EvSpawn self (fst cmd) (snd cmd);
                                EvExpect self "\*\* Connected" m])%list /\
      _process (clients st' self) = Some h /\
      env (clients st' self) = Some (connect_env c) /\
      forall r, r <> self -> clients st' r = clients st r) /\
  connect_command false c room server
    = (jabberite_bin c,
       ["--account"; xmpp_user c; "--password"; xmpp_password c;
        "--server"; server; "--port"; port c; "--room"; room]) /\
  connect_command true c room server
    = ("gdb",
       (["-ex"; "run"; "--args"; fst (connect_command false c room server)]
          ++ snd (connect_command false c room server))%list).
Proof.
  intros Hp H. cbv zeta. split; [|split; reflexivity].
  rewrite connect_unfold, Hp in H. cbv zeta in H.
  set (cmd := connect_command _ _ _ _) in *.
  apply bind_inv_ok in H as (h & st1 & H1 & H2).
  unfold lift_os in H1. cbn [os with_env] in H1.
  destruct (p_spawn (fst cmd) (snd cmd) (connect_env (clients st self)) 3600 (os st))
    as [[h'| |] w] eqn:Sp; try discriminate H1.
  injection H1 as -> <-.
  unfold bind at 1 in H2. unfold set_client at 1 in H2.
  unfold bind at 1 in H2. unfold log at 1 in H2.
  unfold bind at 1 in H2. unfold modify_os at 1 in H2.
  unfold bind at 1 in H2. unfold modify_os at 1 in H2.
  cbn [clients os trace with_env] in H2.
  apply bind_inv_ok in H2 as (i & st2 & H2 & H3).
  rewrite expect_unfold in H2. cbn [clients os trace] in H2.
  rewrite upd_same in H2. cbn [_process set_process] in H2.
  match type of H2 with
  | context [p_expect h ?p (-1) ?w0] => destruct (p_expect h p (-1) w0) as [[i'| |] w2]
  end; try discriminate H2.
  injection H2 as -> <-. injection H3 as <-.
  exists h, w. eexists. split; [reflexivity|].
  cbn [with_event with_os clients os trace].
  split; [now rewrite <- app_assoc|].
  split; [now rewrite upd_same|].
  split; [now rewrite !upd_same|].
  intros r Hr. now rewrite !upd_other.
Qed.

(** X5. Once [connect] has spawned the child, the driver holds its handle
    whatever becomes of the wait for the connected line: when that wait
    fails, the handle stays, and every later [connect] returns at once
    without spawning and without waiting for the connected line again. *)
Theorem connect_failed_wait_keeps_process self room server st h w :
  _process (clients st self) = None ->
  p_spawn (fst (connect_command (run_with_gdb (os st)) (clients st self) room server))
          (snd (connect_command (run_with_gdb (os st)) (clients st self) room server))
          (connect_env (clients st self)) 3600 (os st) = (Ok h, w) ->
  let st' := snd (connect self room server st) in
  _process (clients st' self) = Some h /\
  forall room' server', connect self room' server' st' = (Ok tt, with_env self st').
Proof.
  intros Hp Sp st'.
  assert (K : _process (clients st' self) = Some h).
  { subst st'. rewrite connect_unfold, Hp. cbv zeta.
    unfold bind at 1. unfold lift_os at 1. cbn [os with_env]. rewrite Sp.
    unfold bind at 1. unfold set_client at 1.
    match goal with
    | |- _process (clients (snd (?tail ?st2)) self) = _ =>
        pose proof (keeps_bind _process (log (EvSpawn self
                      (fst (connect_command (run_with_gdb (os st)) (clients st self) room server))
                      (snd (connect_command (run_with_gdb (os st)) (clients st self) room server))))
                      (fun _ => bind (modify_os (p_set_logfile h None)) (fun _ =>
                                bind (modify_os (p_set_logfile_read h)) (fun _ =>
                                bind (expect self "\*\* Connected" (-1)) (fun _ => ret tt)))))
          as KB
    end.
    match goal with
    | |- _process (clients (snd (_ ?st2)) self) = _ =>
        rewrite (KB (keeps_log _ _)
                    (fun _ => keeps_bind _ _ _ (keeps_modify_os _ _)
                      (fun _ => keeps_bind _ _ _ (keeps_modify_os _ _)
                        (fun _ => keeps_bind _ _ _ (keeps_expect _ _ _ _)
                          (fun _ => keeps_ret _ _)))) st2 self)
    end.
    cbn [clients]. now rewrite upd_same. }
  split; [exact K|].
  intros room' server'. rewrite connect_unfold. now rewrite K.
Qed.

(** X6. [stop] does not give up the handle: after it the driver still has
    its process attribute, so a [connect] that follows spawns nothing and
    returns at once: a stopped driver is not started again. *)
Theorem stop_keeps_handle self room server st h :
  _process (clients st self) = Some h ->
  let st1 := snd (stop self st) in
  _process (clients st1 self) = Some h /\
  trace st1 = trace st /\
  connect self room server st1 = (Ok tt, with_env self st1).
Proof.
  intros Hp st1.
  assert (K : _process (clients st1 self) = Some h).
  { subst st1. rewrite (keeps_stop _process self st self). exact Hp. }
  split; [exact K|]. split.
  - subst st1. unfold stop, bind, get_client. rewrite Hp. unfold lift_os.
    now destruct (p_terminate h true (os st)) as [[b| |] w].
  - rewrite connect_unfold. now rewrite K.
Qed.

(** ** The queue, again *)

Lemma same_messages_queues st st' :
  same messages st st' -> queues_hold_messages st -> queues_hold_messages st'.
Proof. intros S Q r. rewrite (S r). apply Q. Qed.

Lemma queues_read_event fuel self timeout st :
  queues_hold_messages st -> queues_hold_messages (snd (read_event fuel self timeout st)).
Proof.
  intros Q.
  pose proof (keeps_read_line messages fuel self timeout st) as K.
  destruct (read_line fuel self timeout st) as [[line| |] st1] eqn:L; cbn [snd] in K.
  - rewrite (read_event_after_line _ _ _ _ _ _ L). cbn [snd].
    destruct (Re.re_match r_message line) eqn:G.
    + intros r. simpl. unfold upd. destruct (Nat.eqb r self) eqn:R.
      * simpl. rewrite forallb_app. apply Nat.eqb_eq in R. subst r.
        rewrite (K self), (Q self). simpl. unfold is_message. now rewrite G.
      * rewrite (K r). apply Q.
    + now apply (same_messages_queues st).
  - destruct (read_event_not_ok _ _ _ _ _ _ L eq_refl) as [-> _].
    now apply (same_messages_queues st).
  - destruct (read_event_not_ok _ _ _ _ _ _ L eq_refl) as [-> _].
    now apply (same_messages_queues st).
Qed.

Lemma queues_pop self m ms st :
  messages (clients st self) = m :: ms ->
  queues_hold_messages st ->
  is_message m = true /\ queues_hold_messages (with_messages self ms st).
Proof.
  intros E Q. pose proof (Q self) as Qs. rewrite E in Qs. simpl in Qs.
  apply andb_prop in Qs as [Qm Qms]. split; [exact Qm|].
  intros r. simpl. unfold upd. destruct (Nat.eqb r self); [exact Qms | apply Q].
Qed.

Lemma queues_read_message_loop n fuel self end_ st :
  queues_hold_messages st ->
  queues_hold_messages (snd (read_message_loop n fuel self end_ st)) /\
  forall m, fst (read_message_loop n fuel self end_ st) = Ok m -> is_message m = true.
Proof.
  revert st. induction n as [|n IH]; intros st Q.
  - simpl. split; [exact Q | discriminate].
  - destruct (messages (clients st self)) as [|m ms] eqn:E.
    + rewrite (read_message_loop_empty _ _ _ _ _ E). unfold bind.
      pose proof (queues_read_event fuel self (Z.max 0 (end_ - time_time (os st))) st Q) as Q1.
      destruct (read_event fuel self (Z.max 0 (end_ - time_time (os st))) st)
        as [[[]| |] st1]; cbn [fst snd] in *.
      * now apply IH.
      * split; [exact Q1 | discriminate].
      * split; [exact Q1 | discriminate].
    + rewrite (read_message_loop_pop _ _ _ _ _ _ _ E). cbn [fst snd].
      destruct (queues_pop _ _ _ _ E Q) as [Qm Qs].
      split; [exact Qs|]. now intros m' [= <-].
Qed.

Lemma queues_run_call fuel c st :
  queues_hold_messages st -> queues_hold_messages (run_call fuel c st).
Proof.
  intros Q. destruct c; simpl.
  - apply (same_messages_queues st); [now apply keeps_set_debug | exact Q].
  - apply (same_messages_queues st); [now apply keeps_send_message | exact Q].
  - apply (same_messages_queues st); [now apply keeps_expect | exact Q].
  - apply (same_messages_queues st); [now apply keeps_read_line | exact Q].
  - now apply queues_read_event.
  - unfold read_message, bind, get_os. now apply queues_read_message_loop.
  - apply (same_messages_queues st); [now apply keeps_connect | exact Q].
  - apply (same_messages_queues st); [now apply keeps_create_conversation | exact Q].
  - apply (same_messages_queues st); [now apply keeps_select_conversation | exact Q].
  - apply (same_messages_queues st); [now apply keeps_invite_conversation | exact Q].
  - apply (same_messages_queues st); [now apply keeps_join_conversation | exact Q].
  - apply (same_messages_queues st); [now apply keeps_invite_and_join_conversation | exact Q].
  - apply (same_messages_queues st); [now apply keeps_stop | exact Q].
Qed.

(** X10. The queues hold message lines only. Starting from queues of message
    lines, the empty ones of [__init__] among them, every test script leaves
    queues of message lines; so whatever [read_message] returns matches the
    message pattern, and is its three groups between the fixed delimiters. *)
Theorem queue_holds_message_lines :
  (forall user password port_ np1sec ld proxy_,
      messages (init user password port_ np1sec ld proxy_) = []) /\
  (forall fuel cs st,
      queues_hold_messages st -> queues_hold_messages (run_calls fuel cs st)) /\
  (forall fuel self timeout st m st',
      queues_hold_messages st ->
      read_message fuel self timeout st = (Ok m, st') ->
      is_message m = true /\
      exists g1 g2 g3,
        m = message_line g1 g2 g3 \/ m = message_line g1 g2 g3 ++ NL).
Proof.
  split; [reflexivity|]. split.
  - intros fuel cs. induction cs as [|c cs IH]; intros st Q; simpl; [exact Q|].
    apply IH. now apply queues_run_call.
  - intros fuel self timeout st m st' Q H.
    assert (M : is_message m = true).
    { unfold read_message, bind, get_os in H.
      destruct (queues_read_message_loop fuel fuel self
                  (time_time (os st) + timeout) st Q) as [_ R].
      apply R. now rewrite H. }
    split; [exact M|].
    unfold is_message in M. destruct (Re.re_match r_message m) as [gs|] eqn:G;
      [|discriminate M].
    destruct (ReFacts.re_match_message _ _ G) as (g1 & g2 & g3 & _ & D).
    now exists g1, g2, g3.
Qed.

(** ** Joining *)

Lemma send_message_ok self message st n st1 :
  send_message self message st = (Ok n, st1) ->
  trace st1 = (trace st ++ [EvSend self message])%list /\
  forall r, clients st1 r = clients st r.
Proof.
  rewrite send_message_unfold.
  destruct (_process (clients st self)) as [h|]; [|discriminate].
  destruct (p_sendline h message (os st)) as [[n'| |] w]; try discriminate.
  intros [= _ <-]. now split.
Qed.

Lemma expect_ok self pattern timeout st n st1 :
  expect self pattern timeout st = (Ok n, st1) ->
  exists m,
    trace st1 = (trace st ++ [EvExpect self pattern m])%list /\
    forall r, clients st1 r = clients st r.
Proof.
  rewrite expect_unfold.
  destruct (_process (clients st self)) as [h|]; [|discriminate].
  destruct (p_expect h pattern timeout (os st)) as [[n'| |] w]; try discriminate.
  intros [= _ <-]. eexists. now split.
Qed.

Lemma select_conversation_ok self id st z st' :
  select_conversation self id st = (Ok z, st') ->
  exists gs g,
    trace st' = (trace st ++ [EvSend self ("/select " ++ format_id id);
                              EvExpect self select_pattern (Some gs)])%list /\
    nth_error gs 1 = Some g /\
    int_of_str g = Some z /\
    conversation_id (clients st' self) = Some z /\
    forall r, r <> self -> clients st' r = clients st r.
Proof.
  rewrite select_conversation_unfold. intros H.
  apply bind_inv_ok in H as (n & st1 & H1 & H2).
  rewrite send_message_unfold in H1.
  destruct (_process (clients st self)) as [h|] eqn:Hp; [|discriminate H1].
  destruct (p_sendline h ("/select " ++ format_id id) (os st)) as [[n'| |] w];
    try discriminate H1.
  injection H1 as -> <-.
  rewrite select_tail_unfold in H2. cbn [with_event with_os clients os] in H2.
  rewrite Hp in H2.
  destruct (p_expect h select_pattern (-1) w) as [[i| |] w2]; try discriminate H2.
  cbv zeta in H2.
  destruct (p_match h w2) as [gs|]; [|discriminate H2].
  destruct (nth_error gs 1) as [g|] eqn:G; [|discriminate H2].
  destruct (int_of_str g) as [z'|] eqn:I; [|discriminate H2].
  injection H2 as -> <-.
  exists gs, g. repeat split; try assumption.
  - simpl. now rewrite <- app_assoc.
  - simpl. now rewrite upd_same.
  - intros r Hr. simpl. now rewrite upd_other.
Qed.

(** X13. When [join_conversation] returns, the driver has matched the
    invitation to the conversation it was asked to join, sent the selection
    of it, matched a selection confirmation, sent the join command and
    matched its own join confirmation, in this order; its selected
    conversation is the integer of the selection confirmation, and the
    other drivers are as they were. *)
Theorem join_conversation_result self id st st' :
  join_conversation self id st = (Ok tt, st') ->
  exists m1 gs g z m2,
    trace st' = (trace st ++
                 [EvExpect self ("\*\* Invited to conversation " ++ format_id id) m1;
                  EvSend self ("/select " ++ format_id id);
                  EvExpect self select_pattern (Some gs);
                  EvSend self "/join";
                  EvExpect self "you joined the chat session" m2])%list /\
    nth_error gs 1 = Some g /\
    int_of_str g = Some z /\
    conversation_id (clients st' self) = Some z /\
    forall r, r <> self -> clients st' r = clients st r.
Proof.
  unfold join_conversation. intros H.
  apply bind_inv_ok in H as (i1 & st1 & H1 & H).
  apply bind_inv_ok in H as (z & st2 & H2 & H).
  apply bind_inv_ok in H as (n & st3 & H3 & H).
  apply bind_inv_ok in H as (i2 & st4 & H4 & H).
  injection H as <-.
  apply expect_ok in H1 as (m1 & T1 & C1).
  apply select_conversation_ok in H2 as (gs & g & T2 & G & I & V & C2).
  apply send_message_ok in H3 as (T3 & C3).
  apply expect_ok in H4 as (m2 & T4 & C4).
  exists m1, gs, g, z, m2. repeat split; try assumption.
  - rewrite T4, T3, T2, T1, <- !app_assoc. reflexivity.
  - now rewrite C4, C3.
  - intros r Hr. now rewrite C4, C3, (C2 r Hr), C1.
Qed.

(** ** Who the handshake changes *)

Lemma others_trans (self : ref) (st1 st2 st3 : state) :
  (forall r, r <> self -> clients st2 r = clients st1 r) ->
  (forall r, r <> self -> clients st3 r = clients st2 r) ->
  forall r, r <> self -> clients st3 r = clients st1 r.
Proof. intros H1 H2 r Hr. now rewrite (H2 r Hr), (H1 r Hr). Qed.

Lemma others_bind {A B} (self : ref) (m : M A) (k : A -> M B) :
  (forall st r, r <> self -> clients (snd (m st)) r = clients st r) ->
  (forall a st r, r <> self -> clients (snd (k a st)) r = clients st r) ->
  forall st r, r <> self -> clients (snd (bind m k st)) r = clients st r.
Proof.
  intros Hm Hk st. unfold bind. specialize (Hm st).
  destruct (m st) as [[a| |] st1]; cbn [snd] in *; try exact Hm.
  eapply others_trans; [exact Hm | apply Hk].
Qed.

Lemma others_of_same {A} (self : ref) (m : M A) :
  keeps (same (fun c => c)) m ->
  forall st r, r <> self -> clients (snd (m st)) r = clients st r.
Proof. intros K st r _. apply (K st r). Qed.

Lemma others_select_tail self st r :
  r <> self -> clients (snd (select_tail self st)) r = clients st r.
Proof.
  intros Hr. rewrite select_tail_unfold.
  destruct (_process (clients st self)) as [h|]; [|reflexivity].
  destruct (p_expect h select_pattern (-1) (os st)) as [[i| |] w]; try reflexivity.
  cbv zeta. destruct (p_match h w) as [gs|]; [|reflexivity].
  destruct (nth_error gs 1) as [g|]; [|reflexivity].
  destruct (int_of_str g); [|reflexivity].
  simpl. now rewrite upd_other.
Qed.

Lemma others_select_conversation self id st r :
  r <> self -> clients (snd (select_conversation self id st)) r = clients st r.
Proof.
  rewrite select_conversation_unfold. revert st r. apply others_bind.
  - apply others_of_same, keeps_send_message.
  - intros _ st r. apply others_select_tail.
Qed.

Lemma others_join_conversation self id st r :
  r <> self -> clients (snd (join_conversation self id st)) r = clients st r.
Proof.
  unfold join_conversation. revert st r.
  apply others_bind; [apply others_of_same, keeps_expect | intros _].
  apply others_bind; [intros st r; apply others_select_conversation | intros _].
  apply others_bind; [apply others_of_same, keeps_send_message | intros _].
  apply others_bind; [apply others_of_same, keeps_expect | intros _].
  apply others_of_same, keeps_ret.
Qed.

(** X16. Whatever its outcome, [invite_and_join_conversation] changes no
    driver object but the invitee's: the inviter, when it is another driver,
    keeps its selected conversation, its queue and its process handle, and
    so does every driver that takes no part. *)
Theorem handshake_changes_invitee_only self client st r :
  r <> client ->
  clients (snd (invite_and_join_conversation self client st)) r = clients st r.
Proof.
  unfold invite_and_join_conversation. revert st r.
  apply others_bind; [apply others_of_same, keeps_get_client | intros c].
  apply others_bind; [apply others_of_same, keeps_invite_conversation | intros _].
  apply others_bind; [apply others_of_same, keeps_get_client | intros s].
  apply others_bind; [intros st r; apply others_join_conversation | intros _].
  apply others_bind; [apply others_of_same, keeps_get_client | intros c'].
  apply others_bind; [apply others_of_same, keeps_expect | intros _].
  apply others_of_same, keeps_ret.
Qed.

(** ** The debug log *)

(** X15. [set_debug] on a driver with a process returns with the log file
    of the child set: to the file named after the user name, opened for
    writing, when enabling, and to none when disabling; no driver object
    changes. On a driver without a process, enabling fails only after the
    log file has been opened, so the file is created, or emptied, all the
    same; disabling fails and changes nothing. *)
Theorem set_debug_effects self st :
  let log_file := username (clients st self) ++ ".log" in
  (forall h,
      _process (clients st self) = Some h ->
      set_debug self true st
        = (Ok tt, with_os (p_set_logfile h (Some log_file) (open_wb log_file (os st))) st) /\
      set_debug self false st = (Ok tt, with_os (p_set_logfile h None (os st)) st)) /\
  (_process (clients st self) = None ->
   set_debug self true st
     = (Raise (AttributeError "logfile"), with_os (open_wb log_file (os st)) st) /\
   set_debug self false st = (Raise (AttributeError "logfile"), st)).
Proof.
  cbv zeta. split.
  - intros h H. unfold set_debug, process_attr, bind, get_client, modify_os, ret, raise.
    cbn [clients os trace]. rewrite H. now split.
  - intros H. unfold set_debug, process_attr, bind, get_client, modify_os, ret, raise.
    cbn [clients os trace]. rewrite H. now split.
Qed.

(** ** The message pattern *)

(** X9. The message pattern takes a message line apart again: for a
    conversation id of one or more digits, a sender of one or more word
    characters and a body without newline, the line built from them matches,
    and its groups are exactly the three; the body may hold any other
    character, the delimiters among them. Conversely a line that matches is
    built from its groups. *)
Theorem message_pattern_round_trip :
  (forall g1 g2 g3,
      g1 <> "" -> forallb Re.is_digit (list_ascii_of_string g1) = true ->
      g2 <> "" -> forallb Re.is_word (list_ascii_of_string g2) = true ->
      forallb Re.not_newline (list_ascii_of_string g3) = true ->
      Re.re_match r_message (message_line g1 g2 g3) = Some [g1; g2; g3]) /\
  (forall line gs,
      Re.re_match r_message line = Some gs ->
      exists g1 g2 g3,
        gs = [g1; g2; g3] /\
        (line = message_line g1 g2 g3 \/ line = message_line g1 g2 g3 ++ NL)) /\
  Re.compile r_message_source = Some r_message.
Proof.
  split; [|split].
  - intros. now apply ReFacts.message_line_matches.
  - intros. now apply ReFacts.re_match_message.
  - reflexivity.
Qed.

(** ** The time spent in [read_message] *)

Section BudgetOfMessages.

Hypothesis read_within_budget :
  forall h size budget w,
    time_time w <= time_time (snd (p_read_nonblocking h size budget w))
    <= time_time w + Z.max 0 budget.

Lemma read_event_os fuel self timeout st :
  os (snd (read_event fuel self timeout st)) = os (snd (read_line fuel self timeout st)).
Proof.
  unfold read_event, bind.
  destruct (read_line fuel self timeout st) as [[line| |] st1]; try reflexivity.
  now destruct (Re.re_match r_message line).
Qed.

Lemma read_message_loop_elapsed n fuel self end_ st :
  time_time (os st)
  <= time_time (os (snd (read_message_loop n fuel self end_ st)))
  <= Z.max (time_time (os st)) end_.
Proof.
  revert st. induction n as [|n IH]; intros st.
  - simpl. lia.
  - destruct (messages (clients st self)) as [|m ms] eqn:E.
    + rewrite (read_message_loop_empty _ _ _ _ _ E). unfold bind.
      pose proof (read_event_os fuel self (Z.max 0 (end_ - time_time (os st))) st) as O.
      pose proof (read_line_elapsed read_within_budget fuel self
                    (Z.max 0 (end_ - time_time (os st))) st) as B.
      rewrite <- O in B.
      destruct (read_event fuel self (Z.max 0 (end_ - time_time (os st))) st)
        as [[[]| |] st1]; cbn [snd] in *; try lia.
      specialize (IH st1). lia.
    + rewrite (read_message_loop_pop _ _ _ _ _ _ _ E). simpl. lia.
Qed.

(** X7. [read_message] fixes its deadline once, and every [read_event] it
    makes is given what is left until then; so, when every byte read keeps
    within the timeout it is given, the time spent in [read_message] never
    exceeds its timeout, however many lines it reads and throws away; and
    with a message in the queue it takes no time at all. *)
Theorem read_message_elapsed fuel self timeout st :
  time_time (os st)
  <= time_time (os (snd (read_message fuel self timeout st)))
  <= time_time (os st) + Z.max 0 timeout.
Proof.
  unfold read_message, bind, get_os.
  pose proof (read_message_loop_elapsed fuel fuel self (time_time (os st) + timeout) st).
  lia.
Qed.

End BudgetOfMessages.

End DriverFacts.

(** ** The scripted child *)

Module ScriptedFacts.
Import Scripted.

Lemma nth_error_replace_nth {A} (l : list A) n x y :
  nth_error l n = Some y -> nth_error (replace_nth n x l) n = Some x.
Proof.
  revert n. induction l as [|z l IH]; intros [|n] H; simpl in *; try discriminate.
  - reflexivity.
  - now apply IH.
Qed.

(** The scripted [read_nonblocking] keeps the contract of the real one. *)
Lemma s_read_within_budget h size budget w :
  clock w <= clock (snd (s_read_nonblocking h size budget w))
  <= clock w + Z.max 0 budget.
Proof.
  unfold s_read_nonblocking, bad_handle.
  destruct (nth_error (procs w) h) as [c|]; [|simpl; lia].
  destruct (out c) as [|[a b] o].
  - destruct (alive c); simpl; lia.
  - destruct (a <=? clock w) eqn:A; [simpl; lia|].
    destruct (alive c); [|simpl; lia]. cbn [negb].
    destruct (a <=? clock w + budget) eqn:B; simpl; lia.
Qed.

Lemma s_terminate_kills h w :
  s_isalive h w = true ->
  exists w', s_terminate h true w = (Ok true, w') /\ s_isalive h w' = false.
Proof.
  unfold s_isalive, s_terminate.
  destruct (nth_error (procs w) h) as [c|] eqn:N; [|discriminate].
  intros ->. eexists. split; [reflexivity|].
  simpl. now rewrite (nth_error_replace_nth _ _ _ _ N).
Qed.

Lemma s_terminate_dead h w :
  s_isalive h w = false -> s_terminate h true w = (Ok true, w).
Proof.
  unfold s_isalive, s_terminate.
  destruct (nth_error (procs w) h) as [c|]; [|reflexivity].
  now intros ->.
Qed.

End ScriptedFacts.

(** ** The line reader on the scripted child *)

Module LineReader.
Import Scripted.

Lemma set_out_set_out o o' c : set_out o (set_out o' c) = set_out o c.
Proof. reflexivity. Qed.

Lemma read_line_loop_returns self h end_ pre :
  forall fuel line (st : state) c a rest,
    _process (clients st self) = Some h ->
    nth_error (procs (os st)) h = Some c ->
    out c = (pre ++ (a, newline) :: rest)%list ->
    alive c = true ->
    Forall (fun tb => fst tb <= Z.max (clock (os st)) end_ /\ snd tb <> newline) pre ->
    a <= Z.max (clock (os st)) end_ ->
    (List.length pre < fuel)%nat ->
    fst (read_line_loop fuel self end_ line st)
      = Ok (line ++ string_of_list_ascii (map snd pre)) /\
    nth_error (procs (os (snd (read_line_loop fuel self end_ line st)))) h
      = Some (set_out rest c).
Proof.
  induction pre as [|[t b] pre IH]; intros fuel line st c a rest Hp Hn Ho Ha Hpre Hle Hf;
    (destruct fuel as [|fuel]; [simpl in Hf; lia|]);
    rewrite read_line_loop_step, Hp; cbv zeta;
    change (@p_read_nonblocking scripted) with s_read_nonblocking;
    change (@time_time scripted) with clock;
    unfold s_read_nonblocking; rewrite Hn, Ho, Ha; cbn [app negb].
  - assert (E : String.eqb (String newline "") NL = true) by reflexivity.
    destruct (a <=? clock (os st)) eqn:A.
    + rewrite E. cbn [fst snd with_os os set_child procs map string_of_list_ascii].
      rewrite append_nil_r. split; [reflexivity|].
      now apply (ScriptedFacts.nth_error_replace_nth _ _ _ _ Hn).
    + apply Z.leb_gt in A.
      assert (B : (a <=? clock (os st) + Z.max 0 (end_ - clock (os st))) = true)
        by (apply Z.leb_le; lia).
      rewrite B, E. cbn [fst snd with_os os set_clock set_child procs map string_of_list_ascii].
      rewrite append_nil_r. split; [reflexivity|].
      now apply (ScriptedFacts.nth_error_replace_nth _ _ _ _ Hn).
  - inversion Hpre as [|x l [Ht Hb] Hrest]; subst x l. cbn [fst snd] in Ht, Hb.
    assert (E : String.eqb (String b "") NL = false).
    { apply String.eqb_neq. intros [= E]. now apply Hb. }
    assert (Fin : forall w' : sworld,
               nth_error (procs w') h = Some (set_out (pre ++ (a, newline) :: rest) c) ->
               Z.max (clock w') end_ = Z.max (clock (os st)) end_ ->
               let st2 := with_os w' (with_event
                            (EvRead self (clock (os st)) (Z.max 0 (end_ - clock (os st)))) st) in
               fst (read_line_loop fuel self end_ (line ++ String b "") st2)
                 = Ok (line ++ string_of_list_ascii (map snd ((t, b) :: pre))) /\
               nth_error (procs (os (snd (read_line_loop fuel self end_
                                            (line ++ String b "") st2)))) h
                 = Some (set_out rest c)).
    { intros w' Hn' Hd st2.
      destruct (IH fuel (line ++ String b "") st2
                  (set_out (pre ++ (a, newline) :: rest)%list c) a rest) as [R1 R2];
        subst st2; cbn [with_os with_event clients os]; try assumption; try reflexivity.
      - rewrite Hd. exact Hrest.
      - now rewrite Hd.
      - simpl in Hf. lia.
      - split; [|exact R2].
        rewrite R1. cbn [map snd string_of_list_ascii]. now rewrite append_assoc. }
    destruct (t <=? clock (os st)) eqn:A.
    + rewrite E. apply Fin.
      * cbn [set_child procs]. now apply (ScriptedFacts.nth_error_replace_nth _ _ _ _ Hn).
      * reflexivity.
    + apply Z.leb_gt in A.
      assert (B : (t <=? clock (os st) + Z.max 0 (end_ - clock (os st))) = true)
        by (apply Z.leb_le; lia).
      rewrite B, E. apply Fin.
      * cbn [set_clock set_child procs].
        now apply (ScriptedFacts.nth_error_replace_nth _ _ _ _ Hn).
      * cbn [set_clock clock]. lia.
Qed.

(** X8. When the child is alive and a whole line reaches the pipe by the
    deadline, [read_line] returns it: the bytes before the first newline,
    in order, without the newline; the newline is taken out of the pipe
    with them, and the bytes behind it stay there for the next read. *)
Theorem read_line_returns_first_line fuel self timeout (st : state) h c pre a rest :
  _process (clients st self) = Some h ->
  nth_error (procs (os st)) h = Some c ->
  out c = (pre ++ (a, newline) :: rest)%list ->
  alive c = true ->
  Forall (fun tb => fst tb <= clock (os st) + Z.max 0 timeout /\ snd tb <> newline) pre ->
  a <= clock (os st) + Z.max 0 timeout ->
  (List.length pre < fuel)%nat ->
  fst (read_line fuel self timeout st) = Ok (string_of_list_ascii (map snd pre)) /\
  nth_error (procs (os (snd (read_line fuel self timeout st)))) h = Some (set_out rest c).
Proof.
  intros Hp Hn Ho Ha Hpre Hle Hf. rewrite read_line_unfold.
  change (@time_time scripted) with clock.
  assert (D : Z.max (clock (os st)) (clock (os st) + timeout)
              = clock (os st) + Z.max 0 timeout) by lia.
  apply (read_line_loop_returns self h _ pre fuel "" st c a rest); auto.
  - now rewrite D.
  - now rewrite D.
Qed.

(** *** Lines that are not messages *)









End LineReader.

(** ** Reads that take time *)

Module TickingFacts.
Import Scripted Ticking.

Lemma arrives_after_le t t' late :
  t' <= t -> arrives_after t late -> arrives_after t' late.
Proof. destruct late as [|[a b] l]; simpl; [auto | lia]. Qed.

Lemma set_out_same o c : out c = o -> set_out o c = c.
Proof. intros <-. now destruct c. Qed.

Section Reads.

Variable cost : Z.
Hypothesis cost_nonneg : 0 <= cost.

(** A read takes the time it waits, within its timeout, and [cost]. *)
Lemma t_read_within_cost h size budget w :
  clock w <= clock (snd (t_read_nonblocking cost h size budget w))
  <= clock w + Z.max 0 budget + cost.
Proof.
  unfold t_read_nonblocking.
  pose proof (ScriptedFacts.s_read_within_budget h size budget w) as B.
  destruct (s_read_nonblocking h size budget w) as [r w']. cbn [snd] in *.
  unfold advance. cbn [set_clock clock]. lia.
Qed.

Lemma read_line_fails h end_ now line (c : child) early late
    (st1 : @state (ticking cost)) (w' : sworld) e :
  nth_error (procs w') h = Some c ->
  out c = (early ++ late)%list ->
  e = (if alive c then TIMEOUT else EOF) ->
  (alive c = true ->
   end_ <= clock w' /\ arrives_after (Z.max now end_) (early ++ late)%list) ->
  read_line_ends h end_ now line c early late (Raise e, @with_os (ticking cost) w' st1).
Proof.
  intros Hn Ho -> Ht. left. exists [], early. cbn [app fst snd os with_os].
  rewrite (set_out_same _ _ Ho). auto.
Qed.

(** The loop of [read_line] on a child whose later output comes too late:
    a byte of [late] would have to be read after the reads of the bytes
    before it, each of which can take [cost] past the deadline. *)
Lemma read_line_loop_early self h end_ early :
  forall fuel line (st : @state (ticking cost)) c late,
    _process (clients st self) = Some h ->
    nth_error (procs (os st)) h = Some c ->
    out c = (early ++ late)%list ->
    arrives_after (Z.max (clock (os st)) end_ + cost * Z.of_nat (List.length early)) late ->
    (List.length early < fuel)%nat ->
    read_line_ends h end_ (clock (os st)) line c early late
      (read_line_loop fuel self end_ line st).
Proof.
  induction early as [|[a b] early IH]; intros fuel line st c late Hp Hn Ho Hl Hf;
    (destruct fuel as [|fuel]; [simpl in Hf; lia|]);
    rewrite read_line_loop_step, Hp; cbv zeta;
    change (@p_read_nonblocking (ticking cost)) with (t_read_nonblocking cost);
    change (@time_time (ticking cost)) with clock;
    unfold t_read_nonblocking, s_read_nonblocking; rewrite Hn, Ho; cbn [app].
  - cbn [List.length] in Hl. rewrite Z.mul_0_r, Z.add_0_r in Hl.
    destruct late as [|[a b] l].
    + destruct (alive c) eqn:A; cbv beta iota.
      * apply read_line_fails; [exact Hn | exact Ho | now rewrite A |].
        intros _. cbn [advance set_clock clock app arrives_after]. split; [lia | exact I].
      * apply read_line_fails; [exact Hn | exact Ho | now rewrite A |].
        intros H. congruence.
    + pose proof Hl as Hl0. cbn [arrives_after] in Hl0.
      destruct (a <=? clock (os st)) eqn:A1; [apply Z.leb_le in A1; lia|].
      destruct (alive c) eqn:A; cbn [negb]; cbv beta iota.
      * destruct (a <=? clock (os st) + Z.max 0 (end_ - clock (os st))) eqn:A2;
          [apply Z.leb_le in A2; lia|]. cbv beta iota.
        apply read_line_fails; [exact Hn | exact Ho | now rewrite A |].
        intros _. cbn [advance set_clock clock app]. split; [lia | exact Hl].
      * apply read_line_fails; [exact Hn | exact Ho | now rewrite A |].
        intros H. congruence.
  - set (st1 := with_event
                  (EvRead self (clock (os st)) (Z.max 0 (end_ - clock (os st)))) st).
    assert (Step : forall w' : sworld,
               nth_error (procs w') h = Some (set_out (early ++ late) c) ->
               clock (os st) <= clock w' <= Z.max (clock (os st)) end_ + cost ->
               read_line_ends h end_ (clock (os st)) line c
                 ((a, b) :: early) late
                 (if String.eqb (String b "") NL
                  then (Ok line, @with_os (ticking cost) w' st1)
                  else read_line_loop fuel self end_ (line ++ String b "")
                         (@with_os (ticking cost) w' st1))).
    { intros w' Hn' Hc.
      destruct (String.eqb (String b "") NL) eqn:E.
      - apply String.eqb_eq in E. injection E as ->.
        right. exists [], a, early. cbn [app map fst snd os with_os List.length].
        repeat split; [intros [] | now rewrite append_nil_r | exact Hn' | lia | lia].
      - apply String.eqb_neq in E.
        assert (Hb : b <> newline) by (intros ->; now apply E).
        assert (Hl' : arrives_after
                        (Z.max (clock w') end_ + cost * Z.of_nat (List.length early)) late).
        { apply (arrives_after_le _ _ _) with (2 := Hl).
          cbn [List.length]. rewrite Nat2Z.inj_succ, Z.mul_succ_r. lia. }
        assert (Hf' : (List.length early < fuel)%nat) by (simpl in Hf; lia).
        destruct (IH fuel (line ++ String b "") (@with_os (ticking cost) w' st1)
                    (set_out (early ++ late) c) late Hp Hn' eq_refl Hl' Hf')
          as [(consumed & rest & E1 & Fr & Pr & Tm)
             | (pre & a' & early' & E1 & Nn & Fr & Pr & Cl)].
        + left. exists ((a, b) :: consumed), rest.
          split; [cbn [app]; now rewrite E1|].
          split; [exact Fr|]. split; [exact Pr|].
          intros Ha. destruct (Tm Ha) as [T1 T2]. split; [exact T1|].
          apply (arrives_after_le _ _ _) with (2 := T2).
          cbn [os with_os]. lia.
        + right. exists ((a, b) :: pre), a', early'.
          split; [cbn [app]; now rewrite E1|].
          split; [cbn [map snd]; intros [I | I]; [now apply Hb | now apply Nn]|].
          split; [rewrite Fr, append_assoc; reflexivity|].
          split; [exact Pr|].
          cbn [os with_os] in Cl. cbn [List.length].
          rewrite Nat2Z.inj_succ, Z.mul_succ_r. lia. }
    destruct (a <=? clock (os st)) eqn:A1; cbv beta iota.
    + apply Z.leb_le in A1. apply Step.
      * cbn [advance set_clock set_child procs].
        now apply (ScriptedFacts.nth_error_replace_nth _ _ _ _ Hn).
      * cbn [advance set_clock set_child clock]. lia.
    + apply Z.leb_gt in A1.
      destruct (alive c) eqn:A; cbn [negb]; cbv beta iota.
      * destruct (a <=? clock (os st) + Z.max 0 (end_ - clock (os st))) eqn:A2;
          cbv beta iota.
        -- apply Z.leb_le in A2. apply Step.
           ++ cbn [advance set_clock set_child procs].
              now apply (ScriptedFacts.nth_error_replace_nth _ _ _ _ Hn).
           ++ cbn [advance set_clock set_child clock]. lia.
        -- apply Z.leb_gt in A2.
           apply read_line_fails; [exact Hn | exact Ho | now rewrite A |].
           intros _. cbn [advance set_clock clock app arrives_after]. lia.
      * apply read_line_fails; [exact Hn | exact Ho | now rewrite A |].
        intros H. congruence.
Qed.

(** With no newline among the bytes that can be read, the loop fails. *)
Lemma read_line_loop_fails self h end_ early fuel line (st : @state (ticking cost)) c late :
  _process (clients st self) = Some h ->
  nth_error (procs (os st)) h = Some c ->
  out c = (early ++ late)%list ->
  ~ In newline (map snd early) ->
  arrives_after (Z.max (clock (os st)) end_ + cost * Z.of_nat (List.length early)) late ->
  (List.length early < fuel)%nat ->
  exists consumed rest,
    early = (consumed ++ rest)%list /\
    fst (read_line_loop fuel self end_ line st) = Raise (if alive c then TIMEOUT else EOF) /\
    nth_error (procs (os (snd (read_line_loop fuel self end_ line st)))) h
      = Some (set_out (rest ++ late) c) /\
    (alive c = true ->
     end_ <= clock (os (snd (read_line_loop fuel self end_ line st))) /\
     arrives_after (Z.max (clock (os st)) end_) (rest ++ late)%list).
Proof.
  intros Hp Hn Ho Nn Hl Hf.
  destruct (read_line_loop_early self h end_ early fuel line st c late Hp Hn Ho Hl Hf)
    as [(consumed & rest & E & R) | (pre & a & early' & E & _)].
  - now exists consumed, rest.
  - exfalso. apply Nn. rewrite E, map_app. apply in_or_app. right. now left.
Qed.



(** *** The wait for a pattern *)






End Reads.

(** C2 (as amended). [read_line] fixes its deadline, the clock at entry
    plus the timeout, once, and every byte read it makes is given the time
    left until that deadline, or zero when it has passed. It does not test
    the deadline itself: the time spent in the call exceeds the timeout by
    no more than what the reads take beyond the timeouts they are given,
    [cost] for each read made when a read takes at most [cost] more than its
    timeout. An exception of a read ends the call and reaches the caller.
    On a child whose reads take [cost] each: when no newline is among the
    bytes that can still be read, the rest of the output arriving after the
    deadline and the time the earlier reads may take past it, the call
    fails, with the timeout, and not before the deadline, when the child is
    alive, and with the end of file when it has exited. *)
Theorem read_line_deadline :
  (forall (P : Pexpect) fuel self timeout (st : @state P),
      let deadline := time_time (os st) + timeout in
      let st' := snd (read_line fuel self timeout st) in
      exists evs,
        trace st' = (trace st ++ evs)%list /\
        Forall (fun e => exists now, e = EvRead self now (Z.max 0 (deadline - now))) evs /\
        forall cost,
          (forall h size budget w,
              time_time w <= time_time (snd (p_read_nonblocking h size budget w))
              <= time_time w + Z.max 0 budget + cost) ->
          time_time (os st) <= time_time (os st')
          <= time_time (os st) + Z.max 0 timeout + cost * Z.of_nat (List.length evs)) /\
  (forall (P : Pexpect) fuel self end_ line (st : @state P) h e w,
      _process (clients st self) = Some h ->
      p_read_nonblocking h 1 (Z.max 0 (end_ - time_time (os st))) (os st) = (Raise e, w) ->
      fst (read_line_loop (S fuel) self end_ line st) = Raise e) /\
  (forall cost h size budget w,
      0 <= cost ->
      clock w <= clock (snd (t_read_nonblocking cost h size budget w))
      <= clock w + Z.max 0 budget + cost) /\
  (forall cost fuel self timeout (st : @state (ticking cost)) h c early late,
      0 <= cost ->
      _process (clients st self) = Some h ->
      nth_error (procs (os st)) h = Some c ->
      out c = (early ++ late)%list ->
      ~ In newline (map snd early) ->
      arrives_after
        (clock (os st) + Z.max 0 timeout + cost * Z.of_nat (List.length early)) late ->
      (List.length early < fuel)%nat ->
      fst (read_line fuel self timeout st) = Raise (if alive c then TIMEOUT else EOF) /\
      (alive c = true ->
       clock (os st) + timeout <= clock (os (snd (read_line fuel self timeout st))))).
Proof.
  split; [|split; [|split]].
  - intros P fuel self timeout st deadline st'.
    destruct (@read_line_loop_overrun P fuel self deadline "" st) as (evs & T & F & B).
    exists evs. split; [exact T|]. split; [exact F|].
    intros cost C. specialize (B cost C).
    change (snd (read_line_loop fuel self deadline "" st)) with st' in B.
    unfold deadline in B. lia.
  - intros P fuel self end_ line st h e w Hp R.
    rewrite read_line_loop_step, Hp. cbv zeta. now rewrite R.
  - intros cost h size budget w C. now apply t_read_within_cost.
  - intros cost fuel self timeout st h c early late C Hp Hn Ho Nn Hl Hf.
    rewrite read_line_unfold.
    change (@time_time (ticking cost)) with clock.
    destruct (read_line_loop_fails cost C self h (clock (os st) + timeout) early fuel ""
                st c late Hp Hn Ho Nn) as (consumed & rest & _ & Fr & _ & Tm).
    + apply (arrives_after_le _ _ _) with (2 := Hl). lia.
    + exact Hf.
    + split; [exact Fr | intros Ha; exact (proj1 (Tm Ha))].
Qed.


End TickingFacts.

(** ** The further properties on example runs *)

Module MoreRuns.
Import Scripted Examples MoreExamples.

Lemma pair_with_snd {A B} (p : A * B) (a : A) : fst p = a -> p = (a, snd p).
Proof. destruct p. simpl. now intros ->. Qed.

Ltac with_snd :=
  match goal with
  | |- ?p = (?a, _) => exact (pair_with_snd p a ltac:(vm_compute; reflexivity))
  end.

(** X1, witness. *)
Lemma init_username_witness :
  username (init "alice@localhost" "secret" 5222 "/opt/np1sec" "/opt/np1sec/lib" None)
  = "alice".
Proof.
  destruct (@init_username scripted "alice@localhost" "secret" 5222 "/opt/np1sec"
              "/opt/np1sec/lib" None) as (_ & _ & L & _).
  apply (L "alice" "localhost").
  - reflexivity.
  - unfold has_at. simpl. intros H.
    repeat (destruct H as [H | H]; [discriminate H|]). exact H.
Defined.

(** X3, witness. *)
Lemma create_conversation_result_witness :
  exists gs g,
    trace (snd (create_conversation 0%nat creating))
      = (trace creating ++ [EvSend 0%nat "/create";
                            EvExpect 0%nat created_pattern (Some gs)])%list /\
    nth_error gs 1 = Some g /\
    int_of_str g = Some 4 /\
    forall r, clients (snd (create_conversation 0%nat creating)) r = clients creating r.
Proof.
  apply (@create_conversation_result scripted 0%nat creating 4
           (snd (create_conversation 0%nat creating))).
  with_snd.
Defined.

(** X4, witness: the first driver connects. *)
Lemma connect_spawns_witness :
  exists h, _process (clients (snd (connect 0%nat "room" "conference.localhost" starting))
                        0%nat) = Some h.
Proof.
  assert (A : _process (clients starting 0%nat) = None) by (vm_compute; reflexivity).
  assert (B : connect 0%nat "room" "conference.localhost" starting
              = (Ok tt, snd (connect 0%nat "room" "conference.localhost" starting)))
    by with_snd.
  destruct (@connect_spawns scripted 0%nat "room" "conference.localhost" starting _ A B)
    as ((h & w & m & _ & _ & K & _) & _).
  now exists h.
Defined.

(** X5, witness: the child never prints the connected line. *)
Lemma connect_failed_wait_keeps_process_witness :
  fst (connect 1%nat "room" "conference.localhost" silent) = Raise TIMEOUT /\
  _process (clients (snd (connect 1%nat "room" "conference.localhost" silent)) 1%nat)
    = Some 0%nat /\
  connect 1%nat "room" "conference.localhost"
    (snd (connect 1%nat "room" "conference.localhost" silent))
  = (Ok tt, with_env 1%nat (snd (connect 1%nat "room" "conference.localhost" silent))).
Proof.
  assert (A : _process (clients silent 1%nat) = None) by (vm_compute; reflexivity).
  destruct (@connect_failed_wait_keeps_process scripted 1%nat "room" "conference.localhost"
              silent 0%nat
              (snd (s_spawn
                      (fst (connect_command false (clients silent 1%nat)
                              "room" "conference.localhost"))
                      (snd (connect_command false (clients silent 1%nat)
                              "room" "conference.localhost"))
                      (connect_env (clients silent 1%nat)) 3600 (os silent))) A)
    as [K R].
  - with_snd.
  - split; [vm_compute; reflexivity|]. split; [exact K | apply R].
Defined.

(** X6, witness. *)
Lemma stop_keeps_handle_witness :
  _process (clients (snd (stop 0%nat one_message)) 0%nat) = Some 0%nat /\
  trace (snd (stop 0%nat one_message)) = trace one_message /\
  connect 0%nat "room" "conference.localhost" (snd (stop 0%nat one_message))
  = (Ok tt, with_env 0%nat (snd (stop 0%nat one_message))).
Proof.
  apply (@stop_keeps_handle scripted 0%nat "room" "conference.localhost" one_message 0%nat).
  vm_compute. reflexivity.
Defined.

(** X7, witness: the scripted child keeps the contract of the byte read. *)
Lemma read_message_elapsed_witness :
  clock (os slow_line)
  <= clock (os (snd (read_message 30 0%nat 5 slow_line)))
  <= clock (os slow_line) + Z.max 0 5.
Proof.
  apply (@read_message_elapsed scripted ScriptedFacts.s_read_within_budget
           30%nat 0%nat 5 slow_line).
Defined.

(** X8, witness: the first of two lines. *)
Lemma read_line_returns_first_line_witness :
  fst (read_line 30 0%nat 5 two_lines) = Ok "first" /\
  nth_error (procs (os (snd (read_line 30 0%nat 5 two_lines)))) 0%nat
    = Some (set_out (line_at 2 "second")
              (child_of (line_at 1 "first" ++ line_at 2 "second")%list)).
Proof.
  apply (@LineReader.read_line_returns_first_line 30 0%nat 5 two_lines 0%nat
           (child_of (line_at 1 "first" ++ line_at 2 "second")%list)
           (at_time 1 "first") 1 (line_at 2 "second")).
  - vm_compute. reflexivity.
  - vm_compute. reflexivity.
  - vm_compute. reflexivity.
  - vm_compute. reflexivity.
  - repeat constructor; cbv; discriminate.
  - cbv. discriminate.
  - vm_compute. lia.
Defined.

(** X9, witness. *)
Lemma message_pattern_round_trip_witness :
  Re.re_match r_message (message_line "12" "bob_2" "a> <b") = Some ["12"; "bob_2"; "a> <b"].
Proof.
  destruct message_pattern_round_trip as (M & _).
  apply M; try reflexivity; discriminate.
Defined.

(** X10, witness: the message read in [one_message]. *)
Lemma queue_holds_message_lines_witness :
  is_message "** <1> <alice> hi" = true /\
  exists g1 g2 g3,
    "** <1> <alice> hi" = message_line g1 g2 g3 \/
    "** <1> <alice> hi" = message_line g1 g2 g3 ++ NL.
Proof.
  destruct (@queue_holds_message_lines scripted) as (_ & _ & R).
  apply (R 30%nat 0%nat 5 one_message "** <1> <alice> hi"
           (snd (read_message 30 0%nat 5 one_message))).
  - intros r. unfold one_message, running. cbn [clients].
    destruct (Nat.eqb r 0); reflexivity.
  - with_snd.
Defined.

(** X11, witness: a driver that has not connected. *)
Lemma unconnected_calls_raise_witness :
  create_conversation 0%nat starting = (Raise (AttributeError "sendline"), starting).
Proof.
  assert (A : _process (clients starting 0%nat) = None) by (vm_compute; reflexivity).
  destruct (@unconnected_calls_raise scripted 0%nat starting A) as (C & _).
  exact C.
Defined.

(** X12, witness. *)
Lemma invite_conversation_result_witness :
  exists m,
    trace (snd (invite_conversation 0%nat "bob" inviting))
      = (trace inviting ++
         [EvSend 0%nat ("/invite " ++ "bob");
          EvExpect 0%nat ("\*\* <(\d)> " ++ username (clients inviting 0%nat)
                            ++ " invited user " ++ "bob") m])%list /\
    forall r, clients (snd (invite_conversation 0%nat "bob" inviting)) r = clients inviting r.
Proof.
  apply (@invite_conversation_result scripted 0%nat "bob" inviting
           (snd (invite_conversation 0%nat "bob" inviting))).
  with_snd.
Defined.

(** X13, witness. *)
Lemma join_conversation_result_witness :
  exists m1 gs g z m2,
    trace (snd (join_conversation 1%nat (Some 1) joining))
      = (trace joining ++
         [EvExpect 1%nat ("\*\* Invited to conversation " ++ format_id (Some 1)) m1;
          EvSend 1%nat ("/select " ++ format_id (Some 1));
          EvExpect 1%nat select_pattern (Some gs);
          EvSend 1%nat "/join";
          EvExpect 1%nat "you joined the chat session" m2])%list /\
    nth_error gs 1 = Some g /\
    int_of_str g = Some z /\
    conversation_id (clients (snd (join_conversation 1%nat (Some 1) joining)) 1%nat)
      = Some z /\
    forall r, r <> 1%nat ->
      clients (snd (join_conversation 1%nat (Some 1) joining)) r = clients joining r.
Proof.
  apply (@join_conversation_result scripted 1%nat (Some 1) joining
           (snd (join_conversation 1%nat (Some 1) joining))).
  with_snd.
Defined.

(** X15, witness: enabling the log of a connected driver. *)
Lemma set_debug_effects_witness :
  files (os (snd (set_debug 0%nat true one_message))) = ["alice.log"] /\
  fst (set_debug 0%nat true one_message) = Ok tt.
Proof.
  destruct (@set_debug_effects scripted 0%nat one_message) as (S & _).
  assert (A : _process (clients one_message 0%nat) = Some 0%nat) by (vm_compute; reflexivity).
  destruct (S 0%nat A) as (E & _).
  rewrite E. split; vm_compute; reflexivity.
Defined.

(** X16, witness: the inviter after the handshake. *)
Lemma handshake_changes_invitee_only_witness :
  clients (snd (invite_and_join_conversation 0%nat 1%nat before_handshake)) 0%nat
  = clients before_handshake 0%nat.
Proof.
  apply (@handshake_changes_invitee_only scripted 0%nat 1%nat before_handshake 0%nat).
  discriminate.
Defined.


End MoreRuns.

(** ** The claims on example runs *)

Module Runs.
Import Scripted Examples Ticking TickingExamples.

Lemma pair_of_fst {A B} (p : A * B) (a : A) : fst p = a -> p = (a, snd p).
Proof. destruct p. simpl. now intros ->. Qed.

Ltac by_fst :=
  match goal with
  | |- ?p = (?a, _) => exact (pair_of_fst p a ltac:(vm_compute; reflexivity))
  end.

Example r_message_compiled : Re.compile r_message_source = Some r_message.
Proof. reflexivity. Qed.

Example r_message_matches :
  Re.re_match r_message "** <1> <alice> hello world" = Some ["1"; "alice"; "hello world"].
Proof. reflexivity. Qed.

Example r_message_rejects : Re.re_match r_message "** Connected" = None.
Proof. reflexivity. Qed.

Example r_message_greedy :
  Re.re_match r_message "** <12> <bob_2> a> <b" = Some ["12"; "bob_2"; "a> <b"].
Proof. reflexivity. Qed.

(** The whole session of the specification: both drivers end in
    conversation 1, and the invitee still receives the chat message that
    arrives later. *)
Example session_runs :
  let st := run_calls 10 session (fresh inviter_output invitee_output) in
  conversation_id (clients st 0%nat) = Some 1 /\
  conversation_id (clients st 1%nat) = Some 1 /\
  fst (read_message 40 1%nat 50 st) = Ok "** <1> <alice> hello world".
Proof. vm_compute. repeat split. Qed.

(** C1, witness: a chat message read from the child. *)
Lemma read_event_enqueues_line_witness :
  (forall gs,
      Re.re_match r_message "** <1> <alice> hi" = Some gs ->
      read_event 30 0%nat 5 one_message
        = (Ok tt, with_messages 0%nat
                    (messages (clients one_message 0%nat) ++ ["** <1> <alice> hi"])
                    (snd (read_line 30 0%nat 5 one_message))) /\
      exists g1 g2 g3,
        gs = [g1; g2; g3] /\
        ("** <1> <alice> hi" = message_line g1 g2 g3 \/
         "** <1> <alice> hi" = message_line g1 g2 g3 ++ NL)) /\
  (Re.re_match r_message "** <1> <alice> hi" = None ->
   read_event 30 0%nat 5 one_message = (Ok tt, snd (read_line 30 0%nat 5 one_message))).
Proof.
  apply (@read_event_enqueues_line scripted 30 0%nat 5 one_message "** <1> <alice> hi"
           (snd (read_line 30 0%nat 5 one_message))).
  by_fst.
Defined.

(** C1, counterexample: what is queued for a matching line is the line, a
    string, and not the event of three fields that the specification
    describes. *)
Lemma read_event_queues_no_event :
  let line := "** <1> <alice> hi" in
  let st' := snd (read_event 30 0%nat 5 one_message) in
  fst (read_line 30 0%nat 5 one_message) = Ok line /\
  messages (clients st' 0%nat) = [line] /\
  spec_read_event [] line
    = [QEvent {| conversationId := "1"; senderHandle := "alice"; body := "hi" |}] /\
  map QLine (messages (clients st' 0%nat))
    <> spec_read_event (map QLine (messages (clients one_message 0%nat))) line.
Proof.
  vm_compute. repeat split. discriminate.
Qed.

(** C2, witness: every read takes one tick. Two bytes of a line are there
    at time 1, the rest comes at time 10, and the timeout is 5: the call
    fails with the timeout. A line of twenty bytes is in the pipe: the call
    overruns its timeout by no more than one tick for each read. *)
Lemma read_line_deadline_witness :
  fst (read_line 30 0%nat 5 (slow_line_at 1)) = Raise TIMEOUT /\
  0 + 5 <= clock (os (snd (read_line 30 0%nat 5 (slow_line_at 1)))) /\
  exists evs,
    trace (snd (read_line 30 0%nat 5 long_line)) = (trace long_line ++ evs)%list /\
    clock (os (snd (read_line 30 0%nat 5 long_line)))
    <= 0 + Z.max 0 5 + 1 * Z.of_nat (List.length evs).
Proof.
  destruct TickingFacts.read_line_deadline as (G & _ & C & R).
  destruct (R 1 30%nat 0%nat 5 (slow_line_at 1) 0%nat
              (child_of (at_time 1 "ab" ++ line_at 10 "c")%list)
              (at_time 1 "ab") (line_at 10 "c")) as (F & T).
  - lia.
  - vm_compute. reflexivity.
  - vm_compute. reflexivity.
  - reflexivity.
  - vm_compute. intros [H | [H | []]]; discriminate H.
  - vm_compute. reflexivity.
  - vm_compute. lia.
  - split; [exact F|]. split; [apply T; reflexivity|].
    destruct (G (ticking 1) 30%nat 0%nat 5 long_line) as (evs & E & _ & B).
    exists evs. split; [exact E|].
    assert (One : forall (h : nat) (size budget : Z) (w : sworld),
               clock w <= clock (snd (t_read_nonblocking 1 h size budget w))
               <= clock w + Z.max 0 budget + 1)
      by (intros h size budget w; apply C; lia).
    exact (proj2 (B 1 One)).
Defined.

(** C2, counterexample: with reads that take one tick each, a line of
    twenty bytes that is in the pipe is returned at time 21, long after the
    timeout of 5; and on a child that has exited the call fails with the
    end of file, not with the timeout. *)
Lemma read_line_misses_deadline :
  fst (read_line 30 0%nat 5 long_line) = Ok "aaaaaaaaaaaaaaaaaaaa" /\
  clock (os long_line) = 0 /\
  clock (os (snd (read_line 30 0%nat 5 long_line))) = 21 /\
  0 + 5 < 21 /\
  fst (read_line 30 0%nat 5 exited) = Raise EOF /\
  clock (os (snd (read_line 30 0%nat 5 exited))) = clock (os exited) /\
  EOF <> TIMEOUT.
Proof.
  vm_compute. repeat split. discriminate.
Qed.

(** C4, witness: two lines in the queue come out in the order they went in. *)
Lemma message_queue_fifo_witness :
  exists st1 st2,
    read_message 1 0%nat 5 (with_messages 0%nat ["first"; "second"] one_message)
      = (Ok "first", st1) /\
    read_message 1 0%nat 5 st1 = (Ok "second", st2) /\
    messages (clients st2 0%nat) = [] /\
    os st2 = os (with_messages 0%nat ["first"; "second"] one_message) /\
    trace st2 = trace (with_messages 0%nat ["first"; "second"] one_message).
Proof.
  destruct (@message_queue_fifo scripted 0%nat) as (_ & _ & F & _).
  apply (F 0%nat 0%nat 5 5 (with_messages 0%nat ["first"; "second"] one_message)
           "first" "second" []).
  vm_compute. reflexivity.
Defined.

(** C5, witness: three calls of connect, two of them on the same driver. *)
Lemma connect_idempotent_witness :
  let st := run_calls 10 session (fresh inviter_output invitee_output) in
  count_spawn 0%nat (trace st) = (0 + processes (clients st 0%nat))%nat /\
  (count_spawn 0%nat (trace st) <= 0 + 1)%nat.
Proof.
  destruct (@connect_idempotent scripted) as (_ & I).
  apply (I 10%nat session (fresh inviter_output invitee_output)).
  intros r. unfold fresh. cbn [clients]. now destruct (Nat.eqb r 0).
Defined.

(** C6, witness. *)
Lemma select_conversation_result_witness :
  exists gs g,
    trace (snd (select_conversation 0%nat (Some 5) stale_selection))
      = (trace stale_selection ++ [EvSend 0%nat ("/select " ++ format_id (Some 5));
                                   EvExpect 0%nat select_pattern (Some gs)])%list /\
    nth_error gs 1 = Some g /\
    int_of_str g = Some 7 /\
    conversation_id (clients (snd (select_conversation 0%nat (Some 5) stale_selection)) 0%nat)
      = Some 7 /\
    (forall r, r <> 0%nat ->
       clients (snd (select_conversation 0%nat (Some 5) stale_selection)) r
       = clients stale_selection r) /\
    (g = format_id (Some 5) -> Some 5 = Some 7).
Proof.
  apply (@select_conversation_result scripted 0%nat (Some 5) stale_selection 7
           (snd (select_conversation 0%nat (Some 5) stale_selection))).
  by_fst.
Defined.

(** C6, counterexample: the driver asks for conversation 5 while the
    confirmation of conversation 7 is still unread; it stores and returns 7. *)
Lemma select_conversation_other_id :
  let r := select_conversation 0%nat (Some 5) stale_selection in
  fst r = Ok 7 /\
  conversation_id (clients (snd r) 0%nat) = Some 7 /\
  In (EvSend 0%nat "/select 5") (trace (snd r)) /\
  Some 7 <> Some 5.
Proof.
  vm_compute. repeat split; [now left | discriminate].
Qed.



(** C8, witness: stopping a driver with a live child. *)
Lemma stop_terminates_witness :
  stop 0%nat (snd (stop 0%nat one_message)) = (Ok tt, snd (stop 0%nat one_message)) /\
  s_isalive 0%nat (os (snd (stop 0%nat one_message))) = false.
Proof.
  destruct (@stop_terminates scripted ScriptedFacts.s_terminate_kills
              ScriptedFacts.s_terminate_dead 0%nat one_message) as (L & _ & I).
  split; [exact I|].
  assert (A : _process (clients one_message 0%nat) = Some 0%nat) by (vm_compute; reflexivity).
  assert (B : s_isalive 0%nat (os one_message) = true) by (vm_compute; reflexivity).
  destruct (L 0%nat A B) as (w' & _ & S & D).
  rewrite S. exact D.
Defined.

(** C9, witness: a driver that has not connected. *)
Lemma no_process_raises_witness :
  fst (send_message 0%nat "hello" (fresh [] [])) = Raise (AttributeError "sendline").
Proof.
  assert (A : _process (clients (fresh [] []) 0%nat) = None) by (vm_compute; reflexivity).
  destruct (@no_process_raises scripted 0%nat (fresh [] []) A) as (S & _).
  apply S.
Defined.

(** C10, witness: the whole session. *)
Lemma conversation_id_invariant_witness :
  let st := run_calls 10 session (fresh inviter_output invitee_output) in
  conversation_id (clients st 1%nat) = last_selecting 1%nat (trace st).
Proof.
  destruct (@conversation_id_invariant scripted) as (_ & I & _).
  apply (I 10%nat session (fresh inviter_output invitee_output)).
  - intros r. unfold fresh. cbn [clients]. now destruct (Nat.eqb r 0).
  - reflexivity.
  - intros c H. unfold session in H. cbn [In] in H.
    repeat (destruct H as [<- | H]; [reflexivity|]). destruct H.
Defined.

(** The handshake of C3 on a run in which every wait matches: all eight
    steps are taken, in order. *)
Example handshake_runs :
  let r := invite_and_join_conversation 0%nat 1%nat before_handshake in
  fst r = Ok tt /\
  map erase (skipn (List.length (trace before_handshake)) (trace (snd r)))
    = handshake 0%nat 1%nat "alice" "bob" (Some 1).
Proof. vm_compute. split; reflexivity. Qed.

End Runs.
